(** * png_2d_planning: the obstacle filter and the SVG output of the demo

    A shallow embedding of [src/demo/png_2d_planning.cpp]: the function
    [filter] (lines 237-274), which turns the decoded PNG into the obstacle
    grid, and the part of [main] (lines 144-195) that writes the solution and
    the visited edges of the planner's graph to an SVG file. *)

From Stdlib Require Import ZArith Lia.
From stdpp Require Import base numbers option list strings.

Local Open Scope Z_scope.

(** ** Outcomes of a run

    C++ code can leave the defined behaviour of the language (an access
    outside a buffer, a signed overflow) or throw.  A run of the embedded code
    is a value of [outcome]: the result, or the reason why there is none. *)

Inductive fault : Type :=
| OutOfBounds   (* a read or write outside the buffer it addresses *)
| IntOverflow   (* an [int] operation whose result is not an [int] *)
| LengthError.  (* [std::vector] asked for more than [max_size()] elements *)

Inductive outcome (A : Type) : Type :=
| Ret (a : A)
| Fail (f : fault).

Arguments Ret {A} a.
Arguments Fail {A} f.

#[export] Instance outcome_ret : MRet outcome := fun A a => Ret a.
#[export] Instance outcome_bind : MBind outcome := fun A B k m =>
  match m with
  | Ret a => k a
  | Fail f => Fail f
  end.

(** ** Machine integers *)

Definition INT_MAX : Z := 2147483647.
Definition INT_MIN : Z := -2147483648.

Definition in_int (z : Z) : bool := (INT_MIN <=? z) && (z <=? INT_MAX).

Definition int_of (z : Z) : outcome Z :=
  if in_int z then Ret z else Fail IntOverflow.

(** [a * b] and [a + b] on [int]. *)
Definition imul (a b : Z) : outcome Z := int_of (a * b).
Definition iadd (a b : Z) : outcome Z := int_of (a + b).

(** ** Buffers

    A buffer is the list of its cells; an address is an offset from its
    start.  The code indexes raw pointers and [std::vector::operator[]],
    neither of which is checked: outside the buffer the run is
    [Fail OutOfBounds]. *)

Definition load {A : Type} (buf : list A) (i : Z) : outcome A :=
  if i <? 0 then Fail OutOfBounds
  else match buf !! Z.to_nat i with
       | Some v => Ret v
       | None => Fail OutOfBounds
       end.

Definition store {A : Type} (buf : list A) (i : Z) (v : A) : outcome (list A) :=
  if (0 <=? i) && (i <? Z.of_nat (length buf))
  then Ret (<[Z.to_nat i := v]> buf)
  else Fail OutOfBounds.

(** [for (int i = 0; i < bound; i++) body], with the state threaded through
    the iterations; [for_loop n i] runs the [n] iterations [i], [i+1], ... *)
Fixpoint for_loop {S : Type} (n : nat) (i : Z) (body : Z -> S -> outcome S)
    (s : S) : outcome S :=
  match n with
  | O => Ret s
  | Datatypes.S n' => s' ← body i s; for_loop n' (i + 1) body s'
  end.

Definition for_upto {S : Type} (bound : Z) (body : Z -> S -> outcome S)
    (s : S) : outcome S :=
  for_loop (Z.to_nat bound) 0 body s.

(** ** PNGColor *)

(** Modelled from the spec: the class [PNGColor] is declared in
    [png_2d_scenario.hpp], which is not part of the sources at hand; the spec
    describes it as an immutable triple (red, green, blue), built by
    [PNGColor(r, g, b)] as in lines 114-115 of [main]. *)
Record PNGColor : Type := mkPNGColor {
  ref_red : Z;
  ref_green : Z;
  ref_blue : Z
}.

(** Modelled from the spec: [PNGColor::isObstacle] (the spec's [matches]) is
    defined in [png_2d_scenario.hpp]; the spec gives it as
    [abs(red - ref.red) <= tolerance AND abs(green - ref.green) <= tolerance
     AND abs(blue - ref.blue) <= tolerance]. *)
Definition isObstacle (c : PNGColor) (red green blue tolerance : Z) : bool :=
  (Z.abs (red - ref_red c) <=? tolerance)
  && (Z.abs (green - ref_green c) <=? tolerance)
  && (Z.abs (blue - ref_blue c) <=? tolerance).

(** ** filter (lines 237-274) *)

(** Line 54.  The constant is a parameter [recolor] of the embedded [filter],
    so that the run with the flag off can be stated too. *)
Definition PRINT_FILTERED_IMAGE : bool := true.

(** Line 240. *)
Definition tolerance : Z := 15.

(** The memory [filter] works on: the bytes of the image, which the row
    pointers address and the function overwrites, and the local vector
    [obstacle]. *)
Record fstate : Type := mkFstate {
  image : list Z;
  obstacle : list bool
}.

(** Line 250: [px[0] > 250 && px[1] > 250 && px[2] > 250]; [&&] reads the
    next channel only when the previous one passed. *)
Definition is_white (img : list Z) (px : Z) : outcome bool :=
  p0 ← load img px;
  if 250 <? p0 then
    p1 ← load img (px + 1);
    if 250 <? p1 then
      p2 ← load img (px + 2);
      mret (250 <? p2)
    else mret false
  else mret false.

(** Lines 254-261: the loop over the filters.  It runs whatever the
    whiteness test said, reads the three channels for each filter it tries
    and stops at the first one that matches. *)
Fixpoint filters_loop (filters : list PNGColor) (img : list Z) (px : Z)
    (isObs : bool) : outcome bool :=
  match filters with
  | [] => mret isObs
  | c :: rest =>
      p0 ← load img px;
      p1 ← load img (px + 1);
      p2 ← load img (px + 2);
      if isObstacle c p0 p1 p2 tolerance then mret true
      else filters_loop rest img px isObs
  end.

(** Lines 266-268. *)
Definition recolor_px (img : list Z) (px : Z) (isObs : bool) : outcome (list Z) :=
  let v := if isObs then 0 else 255 in
  img1 ← store img px v;
  img2 ← store img1 (px + 1) v;
  store img2 (px + 2) v.

(** Lines 246-269: the body of the inner loop, for the pixel [x] of the row
    that starts at [row]. *)
Definition filter_px (recolor : bool) (filters : list PNGColor)
    (width row y x : Z) (st : fstate) : outcome fstate :=
  off ← imul x 3;
  let px := row + off in
  white ← is_white (image st) px;
  isObs ← filters_loop filters (image st) px white;
  wy ← imul width y;
  idx ← iadd wy x;
  obs' ← store (obstacle st) idx isObs;
  if recolor then
    img' ← recolor_px (image st) px isObs;
    mret (mkFstate img' obs')
  else mret (mkFstate (image st) obs').

(** Lines 243-270: the body of the outer loop. *)
Definition filter_row (recolor : bool) (rowPointers : list Z)
    (filters : list PNGColor) (width y : Z) (st : fstate) : outcome fstate :=
  row ← load rowPointers y;
  for_upto width (filter_px recolor filters width row y) st.

(** [filter]: [rowPointers] holds, for each row, the offset of its first byte
    in the image buffer [img].  The result is the vector returned together
    with the image as the call leaves it. *)
Definition filter (recolor : bool) (rowPointers : list Z)
    (filters : list PNGColor) (width height : Z) (img : list Z)
    : outcome (list bool * list Z) :=
  n ← imul width height;
  if n <? 0 then Fail LengthError
  else
    st ← for_upto height (filter_row recolor rowPointers filters width)
           (mkFstate img (replicate (Z.to_nat n) false));
    mret (obstacle st, image st).

(** Lines 103-106 of [main]: row [y] starts at [&image[y * rowBytes]]. *)
Definition row_pointers (rowBytes height : Z) : list Z :=
  (fun y => Z.of_nat y * rowBytes) <$> seq 0 (Z.to_nat height).

(** ** The SVG output of [main] (lines 144-195) *)

Section Output.

(** [Scalar] is [double] in the source (line 49); the code only passes
    coordinates on, so the type is left open. *)
Context {Scalar : Type}.

(** Line 50: [Eigen::Matrix<Scalar, 2, 1>], a point [(q[0], q[1])]. *)
Definition State : Type := Scalar * Scalar.

(** Modelled from the spec: the drawing functions [startSvg], [addImage],
    [addSolutionEdge], [addVisitedEdge] and [endSvg] are declared in
    [shape_hierarchy.hpp], which is not part of the sources at hand; the spec
    has them write the header of the document, the reference to the
    background image, a segment of the path, a segment for a visited edge and
    the footer.  The text each one writes is left abstract: the content of a
    stream is the sequence of the calls made on it, with their arguments. *)
Inductive svg_call : Type :=
| startSvg (width height : Z)
| addImage (name : string)
| addSolutionEdge (x1 y1 x2 y2 : Scalar)
| addVisitedEdge (x1 y1 x2 y2 : Scalar)
| endSvg.

(** Lines 159-164: [for (it = begin; it + 1 != end; ++it)] draws the edge
    from [*it] to [*(it + 1)].  On an empty vector the test never fails and
    the loop runs past the end. *)
Fixpoint solution_loop (solution : list State) : outcome (list svg_call) :=
  match solution with
  | [] => Fail OutOfBounds
  | from :: rest =>
      match rest with
      | [] => mret []
      | to :: _ =>
          segs ← solution_loop rest;
          mret (addSolutionEdge from.1 from.2 to.1 to.2 :: segs)
      end
  end.

(** Lines 157-165: the loop under its guard [!solution.empty()]. *)
Definition draw_solution (solution : list State) : outcome (list svg_call) :=
  match solution with
  | [] => mret []
  | _ :: _ => solution_loop solution
  end.

(** Lines 172-191.  A [Visitor] holds the last vertex seen; its reference
    [out_] to the stream and the function-local [static int count] of
    [edge] are passed to [edge] and returned by it. *)
Record Visitor : Type := mkVisitor { from_ : State }.

(** Line 177: the constructor binds [out_] and leaves [from_] as it finds
    it; [uninit] is what the member holds then. *)
Definition new_Visitor (uninit : State) : Visitor := mkVisitor uninit.

(** Lines 179-182. *)
Definition vertex (q : State) (v : Visitor) : Visitor := mkVisitor q.

(** Lines 184-190. *)
Definition edge (to : State) (v : Visitor) (count : Z) (out : list svg_call)
    : outcome (Z * list svg_call) :=
  c ← iadd count 1;
  if 10000 <? c then mret (c, out)
  else mret (c, out ++ [addVisitedEdge (from_ v).1 (from_ v).2 to.1 to.2]).

(** Modelled from the spec: [planner.visitGraph] belongs to the planner
    ([mpt/prrt_star.hpp]), which is not part of the sources at hand; the spec
    has it walk the planner's graph and call the per-vertex and the per-edge
    callback of the visitor in an order of its own.  A traversal is the list
    of the calls it makes, and [visitGraph] makes them on the visitor it was
    given. *)
Inductive callback : Type :=
| on_vertex (q : State)
| on_edge (to : State).

Fixpoint visitGraph (traversal : list callback) (v : Visitor) (count : Z)
    (out : list svg_call) : outcome (Z * list svg_call) :=
  match traversal with
  | [] => mret (count, out)
  | on_vertex q :: rest => visitGraph rest (vertex q v) count out
  | on_edge to :: rest =>
      r ← edge to v count out;
      visitGraph rest v r.1 r.2
  end.

(** What the process holds around lines 144-195: the static counter of
    [Visitor::edge], the log, and the file [png_2d_demo.svg] ([None] as
    long as nothing has opened it). *)
Record process : Type := mkProcess {
  count : Z;
  log : list string;
  svg_file : option (list svg_call)
}.

(** Line 186: [static int count = 0], the state in which the program
    starts. *)
Definition process_start : process := mkProcess 0 [] None.

(** Lines 144-195 of [main], for the [solution] and the graph [traversal]
    the planner gives. *)
Definition write_solution (width height : Z) (inputName : string)
    (solution : list State) (traversal : list callback) (uninit : State)
    (p : process) : outcome process :=
  match solution with
  | [] => mret (mkProcess (count p) (log p ++ ["No solution was found"]) (svg_file p))
  | _ :: _ =>
      let file := [startSvg width height; addImage inputName] in
      path ← draw_solution solution;
      r ← visitGraph traversal (new_Visitor uninit) (count p) (file ++ path);
      mret (mkProcess r.1
              (log p ++ ["Writing the solution to png_2d_demo.svg"])
              (Some (r.2 ++ [endSvg])))
  end.

(** The edges a traversal delivers: each call of [edge], with the vertex
    the visitor holds at that moment. *)
Fixpoint delivered (traversal : list callback) (from : State)
    : list (State * State) :=
  match traversal with
  | [] => []
  | on_vertex q :: rest => delivered rest q
  | on_edge to :: rest => (from, to) :: delivered rest from
  end.

Definition visited_segment (e : State * State) : svg_call :=
  addVisitedEdge e.1.1 e.1.2 e.2.1 e.2.2.

End Output.

Arguments svg_call : clear implicits.
Arguments callback : clear implicits.
Arguments Visitor : clear implicits.
Arguments process : clear implicits.
Arguments State : clear implicits.

(** ** The raster and the rule the grid is read against *)

(** The image as [main] hands it to [filter]: 8-bit RGB, no padding, so
    [rowBytes = 3 * width] and the buffer holds [3 * width * height] bytes
    (line 104). *)
Definition raster_ok (img : list Z) (width height : Z) : Prop :=
  0 <= width /\ 0 <= height /\ Z.of_nat (length img) = 3 * width * height.

(** A buffer that holds at least the bytes of a [width] by [height] image. *)
Definition raster_fits (img : list Z) (width height : Z) : Prop :=
  0 <= width /\ 0 <= height /\ 3 * width * height <= Z.of_nat (length img).

(** The sizes for which the [int] arithmetic of [filter] stays in range. *)
Definition ints_ok (width height : Z) : Prop :=
  width * height <= INT_MAX /\ 3 * width <= INT_MAX.

(** The three channels of the [i]-th pixel of a buffer, in row-major order. *)
Definition pixel (img : list Z) (i : Z) : outcome (Z * Z * Z) :=
  r ← load img (3 * i);
  g ← load img (3 * i + 1);
  b ← load img (3 * i + 2);
  mret (r, g, b).

(** The pixel in column [x] of row [y]. *)
Definition pixel_at (img : list Z) (width x y : Z) : outcome (Z * Z * Z) :=
  pixel img (width * y + x).

(** The test of line 250 on the three channels of a pixel. *)
Definition near_white (p : Z * Z * Z) : bool :=
  (250 <? p.1.1) && (250 <? p.1.2) && (250 <? p.2).

(** What the loop of lines 254-261 looks for: a filter that matches. *)
Definition matches_some (filters : list PNGColor) (p : Z * Z * Z) : bool :=
  existsb (fun c => isObstacle c p.1.1 p.1.2 p.2 tolerance) filters.

(** The value line 262 stores for a pixel: near-white, or matched by one of
    the filters. *)
Definition obstacle_rule (filters : list PNGColor) (p : Z * Z * Z) : bool :=
  near_white p || matches_some filters p.

(** The colour lines 266-268 paint a pixel with. *)
Definition paint (isObs : bool) : Z * Z * Z :=
  if isObs then (0, 0, 0) else (255, 255, 255).

(** Two runs of [filter] with the recolouring off, the second on the image
    as the first one leaves it; the result is the two grids. *)
Definition filter_twice (rowPointers : list Z) (filters : list PNGColor)
    (width height : Z) (img : list Z) : outcome (list bool * list bool) :=
  r1 ← filter false rowPointers filters width height img;
  r2 ← filter false rowPointers filters width height r1.2;
  mret (r1.1, r2.1).

(** ** The state of the scan

    The state of [filter] once the first [i] pixels, in row-major order, are
    done: their cells of [obstacle] hold the rule's verdict on the pixels of
    the image as it was given, and their bytes are repainted when the
    recolouring is on; every other byte is as it was. *)

Definition verdict (filters : list PNGColor) (img : list Z) (i : Z) : bool :=
  match pixel img i with
  | Ret p => obstacle_rule filters p
  | Fail _ => false
  end.

Record scanned (recolor : bool) (filters : list PNGColor) (img : list Z)
    (n i : Z) (st : fstate) : Prop := mkScanned {
  scanned_image_length : length (image st) = length img;
  scanned_obstacle_length : Z.of_nat (length (obstacle st)) = n;
  scanned_obstacle : forall j, 0 <= j < i ->
    load (obstacle st) j = Ret (verdict filters img j);
  scanned_image : forall j k, 0 <= j -> 0 <= k < 3 ->
    load (image st) (3 * j + k) =
      if recolor && (j <? i)
      then Ret (if verdict filters img j then 0 else 255)
      else load img (3 * j + k)
}.

(** The sizes of the two buffers, which no step of the scan changes. *)
Definition sized (img : list Z) (n : Z) (st : fstate) : Prop :=
  length (image st) = length img /\ Z.of_nat (length (obstacle st)) = n.

(** ** Rows of [rowBytes] bytes

    The same for an image whose rows hold [rowBytes] bytes each, the pixels
    at the front of the row and padding after them. *)

(** The three channels of the pixel whose first byte is at [a]. *)
Definition pixel_from (img : list Z) (a : Z) : outcome (Z * Z * Z) :=
  r ← load img a;
  g ← load img (a + 1);
  b ← load img (a + 2);
  mret (r, g, b).

Definition verdict_from (filters : list PNGColor) (img : list Z) (a : Z) : bool :=
  match pixel_from img a with
  | Ret p => obstacle_rule filters p
  | Fail _ => false
  end.

(** The pixel [(x', y')] comes before the pixel [(x, y)] in the scan. *)
Definition done_before (y x y' x' : Z) : bool :=
  (y' <? y) || ((y' =? y) && (x' <? x)).

(** The state of [filter] when the scan is about to do the pixel [(x, y)]. *)
Record scanned_rows (recolor : bool) (filters : list PNGColor) (img : list Z)
    (rowBytes width n y x : Z) (st : fstate) : Prop := mkScannedRows {
  rows_image_length : length (image st) = length img;
  rows_obstacle_length : Z.of_nat (length (obstacle st)) = n;
  rows_obstacle : forall y' x', 0 <= y' -> 0 <= x' < width ->
    done_before y x y' x' = true ->
    load (obstacle st) (width * y' + x') =
      Ret (verdict_from filters img (y' * rowBytes + 3 * x'));
  rows_painted : forall y' x' k, 0 <= y' -> 0 <= x' < width -> 0 <= k < 3 ->
    done_before y x y' x' = true -> recolor = true ->
    load (image st) (y' * rowBytes + 3 * x' + k) =
      Ret (if verdict_from filters img (y' * rowBytes + 3 * x') then 0 else 255);
  rows_untouched : forall a,
    (recolor = true ->
     forall y' x' k, 0 <= y' -> 0 <= x' < width -> 0 <= k < 3 ->
       done_before y x y' x' = true -> a <> y' * rowBytes + 3 * x' + k) ->
    load (image st) a = load img a
}.

(** ** The row pointers of [main] (lines 103-106)

    [rowBytes] is a [size_t], taken to have 64 bits: the products
    [rowBytes * height] (line 104) and [y * rowBytes] (line 106) are
    computed modulo [2^64]. *)
Definition SIZE_MAX : Z := 18446744073709551615.

(** The most elements a vector of bytes can have. *)
Definition PTRDIFF_MAX : Z := 9223372036854775807.

Definition size_mul (a b : Z) : Z := (a * b) mod (SIZE_MAX + 1).

(** [rowPointers] is a vector of [height] pointers, [init] being what they
    hold before the loop, and [image] a vector of [rowBytes * height] bytes.
    The loop sets entry [y] to the address of [image[y * rowBytes]], which
    has to be an element of [image], and then increments the [int] [y]. *)
Definition main_row_pointers (rowBytes height : Z) (init : list Z)
    : outcome (list Z) :=
  let size := size_mul rowBytes height in
  if PTRDIFF_MAX <? size then Fail LengthError
  else
    for_upto height
      (fun y rowPointers =>
         let i := size_mul y rowBytes in
         a ← (if i <? size then mret i else Fail OutOfBounds);
         rowPointers' ← store rowPointers y a;
         _ ← iadd y 1;
         mret rowPointers')
      init.

(** ** The visitor after a traversal *)

Section Traversal.

Context {Scalar : Type}.

(** The visitor as a traversal leaves it: [from_] is the last vertex it was
    given (lines 179-182), if there was one. *)
Fixpoint visitor_after (traversal : list (callback Scalar)) (v : Visitor Scalar)
    : Visitor Scalar :=
  match traversal with
  | [] => v
  | on_vertex q :: rest => visitor_after rest (vertex q v)
  | on_edge _ :: rest => visitor_after rest v
  end.

End Traversal.

(** * Properties *)

(** ** The code at work *)

(** A 4 by 4 raster, white but for the pixel in column 2 of row 2, and no
    filter: the white pixels are the obstacles, and with the recolouring on
    they come out black and the dark pixel white. *)
Example filter_4x4 :
  let white := [255; 255; 255] in
  let img := mjoin (replicate 10 white) ++ [0; 0; 0] ++ mjoin (replicate 5 white) in
  filter true (row_pointers 12 4) [] 4 4 img =
    Ret (replicate 10 true ++ [false] ++ replicate 5 true,
         replicate 30 0 ++ [255; 255; 255] ++ replicate 15 0).
Proof. vm_compute. reflexivity. Qed.

(** The two filters of [main] (lines 114-115) on a row of three pixels: the
    first is within the tolerance of the first filter, the second is one off
    it in the red channel, the third is near-white. *)
Example filter_main_filters :
  filter false (row_pointers 9 1)
    [mkPNGColor 126 106 61; mkPNGColor 61 53 6] 3 1
    [141; 91; 76;  142; 106; 61;  251; 252; 253] =
  Ret ([true; false; true], [141; 91; 76;  142; 106; 61;  251; 252; 253]).
Proof. vm_compute. reflexivity. Qed.

(** Negative dimensions: the size of the vector is negative, or the loops
    do not run. *)
Example filter_negative_width :
  filter true (row_pointers 3 1) [] (-1) 1 [0; 0; 0] = Fail LengthError
  /\ filter true [] [] (-2) (-3) [] = Ret (replicate 6 false, []).
Proof. split; vm_compute; reflexivity. Qed.

(** A path of three points, and a traversal of two vertices and three
    edges, the first edge delivered before any vertex. *)
Example write_solution_small :
  write_solution 100 100 "in.png" [(0, 0); (50, 50); (99, 99)]
    [on_edge (1, 1); on_vertex (2, 2); on_edge (3, 3); on_vertex (4, 4); on_edge (5, 5)]
    (-7, -7) process_start =
  Ret (mkProcess 3 ["Writing the solution to png_2d_demo.svg"]
         (Some [startSvg 100 100; addImage "in.png";
                addSolutionEdge 0 0 50 50; addSolutionEdge 50 50 99 99;
                addVisitedEdge (-7) (-7) 1 1; addVisitedEdge 2 2 3 3;
                addVisitedEdge 4 4 5 5;
                endSvg])).
Proof. vm_compute. reflexivity. Qed.

(** ** Outcomes, buffers and loops *)

Lemma bind_Ret {A B : Type} (a : A) (k : A -> outcome B) : (Ret a ≫= k) = k a.
Proof. reflexivity. Qed.

Lemma bind_Fail {A B : Type} (f : fault) (k : A -> outcome B) :
  (Fail f ≫= k) = Fail f.
Proof. reflexivity. Qed.

Lemma bind_Ret_inv {A B : Type} (m : outcome A) (k : A -> outcome B) (b : B) :
  m ≫= k = Ret b -> exists a, m = Ret a /\ k a = Ret b.
Proof. destruct m as [a|f]; [eauto | discriminate]. Qed.

Lemma int_of_in_range (z : Z) : INT_MIN <= z <= INT_MAX -> int_of z = Ret z.
Proof.
  intros H. unfold int_of, in_int.
  destruct (Z.leb_spec INT_MIN z), (Z.leb_spec z INT_MAX); simpl; auto; lia.
Qed.

Lemma load_in_range {A : Type} (buf : list A) (i : Z) :
  0 <= i < Z.of_nat (length buf) -> exists v, load buf i = Ret v.
Proof.
  intros H. unfold load.
  destruct (Z.ltb_spec i 0); [lia|].
  destruct (lookup_lt_is_Some_2 buf (Z.to_nat i)) as [v Hv]; [lia|].
  exists v. now rewrite Hv.
Qed.

Lemma load_Ret_range {A : Type} (buf : list A) (i : Z) (v : A) :
  load buf i = Ret v -> 0 <= i < Z.of_nat (length buf).
Proof.
  unfold load. destruct (Z.ltb_spec i 0); [discriminate|].
  destruct (buf !! Z.to_nat i) eqn:E; [|discriminate].
  intros _. apply lookup_lt_Some in E. lia.
Qed.

Lemma load_same_length {A : Type} (buf buf' : list A) (i : Z) (f : fault) :
  length buf' = length buf -> load buf i = Fail f -> load buf' i = Fail f.
Proof.
  unfold load. intros Hlen. destruct (Z.ltb_spec i 0); [auto|].
  destruct (buf !! Z.to_nat i) eqn:E; [discriminate|].
  apply lookup_ge_None in E. rewrite <- Hlen in E.
  apply lookup_ge_None in E. now rewrite E.
Qed.

Lemma store_in_range {A : Type} (buf : list A) (i : Z) (v : A) :
  0 <= i < Z.of_nat (length buf) ->
  store buf i v = Ret (<[Z.to_nat i := v]> buf).
Proof.
  intros H. unfold store.
  destruct (Z.leb_spec 0 i), (Z.ltb_spec i (Z.of_nat (length buf))); simpl; auto; lia.
Qed.

Lemma load_insert_eq {A : Type} (buf : list A) (i : Z) (v : A) :
  0 <= i < Z.of_nat (length buf) -> load (<[Z.to_nat i := v]> buf) i = Ret v.
Proof.
  intros H. unfold load. destruct (Z.ltb_spec i 0); [lia|].
  rewrite list_lookup_insert_eq; [reflexivity | lia].
Qed.

Lemma load_insert_ne {A : Type} (buf : list A) (i j : Z) (v : A) :
  0 <= i -> i <> j -> load (<[Z.to_nat i := v]> buf) j = load buf j.
Proof.
  intros Hi Hne. unfold load. destruct (Z.ltb_spec j 0); [reflexivity|].
  rewrite list_lookup_insert_ne; [reflexivity | lia].
Qed.

(** A loop whose body keeps an invariant (stated for the counter) runs to its
    end and leaves the invariant at the bound. *)
Lemma for_loop_invariant {S : Type} (P : Z -> S -> Prop)
    (body : Z -> S -> outcome S) (n : nat) :
  forall (i : Z) (s : S),
    P i s ->
    (forall j t, i <= j < i + Z.of_nat n -> P j t ->
       exists t', body j t = Ret t' /\ P (j + 1) t') ->
    exists s', for_loop n i body s = Ret s' /\ P (i + Z.of_nat n) s'.
Proof.
  induction n as [|n IH]; intros i s Hs Hbody; simpl.
  - exists s. split; [reflexivity|]. now replace (i + Z.of_nat 0) with i by lia.
  - destruct (Hbody i s) as (t & Ht & HP); [lia | assumption |].
    rewrite Ht, bind_Ret.
    destruct (IH (i + 1) t HP) as (s' & Hs' & HP').
    + intros j u Hj. apply Hbody. lia.
    + exists s'. split; [assumption|].
      now replace (i + Z.of_nat (Datatypes.S n)) with (i + 1 + Z.of_nat n) by lia.
Qed.

Lemma for_upto_invariant {S : Type} (P : Z -> S -> Prop)
    (body : Z -> S -> outcome S) (bound : Z) (s : S) :
  0 <= bound ->
  P 0 s ->
  (forall j t, 0 <= j < bound -> P j t ->
     exists t', body j t = Ret t' /\ P (j + 1) t') ->
  exists s', for_upto bound body s = Ret s' /\ P bound s'.
Proof.
  intros Hb Hs Hbody. unfold for_upto.
  destruct (for_loop_invariant P body (Z.to_nat bound) 0 s Hs) as (s' & E & HP).
  - intros j t Hj. apply Hbody. lia.
  - exists s'. split; [assumption|].
    now replace bound with (0 + Z.of_nat (Z.to_nat bound)) by lia.
Qed.

(** ** One pixel *)

Lemma is_white_spec (img : list Z) (px r g b : Z) :
  load img px = Ret r -> load img (px + 1) = Ret g -> load img (px + 2) = Ret b ->
  is_white img px = Ret (near_white (r, g, b)).
Proof.
  intros Hr Hg Hb. unfold is_white, near_white. rewrite Hr, bind_Ret. simpl.
  destruct (250 <? r); [|reflexivity].
  rewrite Hg, bind_Ret. destruct (250 <? g); [|reflexivity].
  now rewrite Hb, bind_Ret.
Qed.

Lemma filters_loop_spec (filters : list PNGColor) (img : list Z)
    (px r g b : Z) (w : bool) :
  load img px = Ret r -> load img (px + 1) = Ret g -> load img (px + 2) = Ret b ->
  filters_loop filters img px w = Ret (w || matches_some filters (r, g, b)).
Proof.
  intros Hr Hg Hb. unfold matches_some. simpl.
  induction filters as [|c rest IH]; simpl.
  - now rewrite orb_false_r.
  - rewrite Hr, bind_Ret, Hg, bind_Ret, Hb, bind_Ret.
    destruct (isObstacle c r g b tolerance); simpl.
    + now rewrite orb_true_r.
    + exact IH.
Qed.

Lemma recolor_px_spec (img : list Z) (px : Z) (isObs : bool) :
  0 <= px -> px + 2 < Z.of_nat (length img) ->
  exists img',
    recolor_px img px isObs = Ret img' /\
    length img' = length img /\
    forall a, load img' a =
      if (px <=? a) && (a <=? px + 2)
      then Ret (if isObs then 0 else 255)
      else load img a.
Proof.
  intros H0 H2. unfold recolor_px.
  set (v := if isObs then 0 else 255).
  rewrite store_in_range, bind_Ret by lia.
  rewrite store_in_range, bind_Ret by (rewrite length_insert; lia).
  rewrite store_in_range by (rewrite !length_insert; lia).
  eexists. split; [reflexivity|]. split; [now rewrite !length_insert|].
  intros a.
  destruct (Z.leb_spec px a), (Z.leb_spec a (px + 2)); simpl.
  - assert (a = px \/ a = px + 1 \/ a = px + 2) as [->|[->| ->]] by lia.
    + rewrite !load_insert_ne by lia. apply load_insert_eq. lia.
    + rewrite load_insert_ne by lia. apply load_insert_eq.
      rewrite length_insert. lia.
    + apply load_insert_eq. rewrite !length_insert. lia.
  - now rewrite !load_insert_ne by lia.
  - now rewrite !load_insert_ne by lia.
  - now rewrite !load_insert_ne by lia.
Qed.

(** ** The scan *)

Lemma pixel_in_range (img : list Z) (i : Z) :
  0 <= i -> 3 * i + 2 < Z.of_nat (length img) ->
  exists r g b,
    load img (3 * i) = Ret r /\ load img (3 * i + 1) = Ret g /\
    load img (3 * i + 2) = Ret b /\ pixel img i = Ret (r, g, b).
Proof.
  intros H0 H2.
  destruct (load_in_range img (3 * i)) as [r Hr]; [lia|].
  destruct (load_in_range img (3 * i + 1)) as [g Hg]; [lia|].
  destruct (load_in_range img (3 * i + 2)) as [b Hb]; [lia|].
  exists r, g, b. unfold pixel. now rewrite Hr, Hg, Hb.
Qed.

Lemma scanned_start (recolor : bool) (filters : list PNGColor) (img : list Z)
    (n : Z) :
  0 <= n ->
  scanned recolor filters img n 0 (mkFstate img (replicate (Z.to_nat n) false)).
Proof.
  intros Hn. split; simpl.
  - reflexivity.
  - rewrite length_replicate. lia.
  - intros j Hj. lia.
  - intros j k Hj Hk. destruct (Z.ltb_spec j 0); [lia|].
    now rewrite andb_false_r.
Qed.

Lemma filter_px_scanned (recolor : bool) (filters : list PNGColor)
    (img : list Z) (width height x y : Z) (st : fstate) :
  raster_fits img width height -> ints_ok width height ->
  0 <= x < width -> 0 <= y < height ->
  scanned recolor filters img (width * height) (width * y + x) st ->
  exists st',
    filter_px recolor filters width (y * (3 * width)) y x st = Ret st' /\
    scanned recolor filters img (width * height) (width * y + x + 1) st'.
Proof.
  intros (Hw & Hh & Hlen) (Hwh & Hw3) Hx Hy [Hli Hlo Hobs Himg].
  set (i := width * y + x) in *.
  assert (0 <= width * y) as Hwy0 by nia.
  assert (width * (y + 1) <= width * height) as Hrow by nia.
  assert (0 <= i < width * height) as Hi by (unfold i; lia).
  destruct (pixel_in_range img i) as (r & g & b & Hr & Hg & Hb & Hp); [lia | lia |].
  assert (verdict filters img i = near_white (r, g, b) || matches_some filters (r, g, b))
    as Hv by (unfold verdict; now rewrite Hp).
  assert (forall k, 0 <= k < 3 -> load (image st) (3 * i + k) = load img (3 * i + k))
    as Hsame.
  { intros k Hk. rewrite Himg by lia. destruct (Z.ltb_spec i i); [lia|].
    now rewrite andb_false_r. }
  remember (filter_px recolor filters width (y * (3 * width)) y x st) as res eqn:E.
  unfold filter_px, imul, iadd in E.
  rewrite (int_of_in_range (x * 3)), bind_Ret in E by (unfold INT_MIN; lia).
  replace (y * (3 * width) + x * 3) with (3 * i) in E by (unfold i; lia).
  pose proof (Hsame 0 ltac:(lia)) as H0. rewrite Z.add_0_r, Hr in H0.
  pose proof (Hsame 1 ltac:(lia)) as H1. rewrite Hg in H1.
  pose proof (Hsame 2 ltac:(lia)) as H2. rewrite Hb in H2.
  rewrite (is_white_spec _ _ r g b H0 H1 H2), bind_Ret in E.
  rewrite (filters_loop_spec _ _ _ r g b _ H0 H1 H2), bind_Ret in E.
  rewrite (int_of_in_range (width * y)), bind_Ret in E by (unfold INT_MIN; lia).
  rewrite (int_of_in_range (width * y + x)), bind_Ret in E by (fold i; unfold INT_MIN; lia).
  fold i in E. rewrite <- Hv in E.
  rewrite store_in_range, bind_Ret in E by lia.
  destruct recolor.
  - destruct (recolor_px_spec (image st) (3 * i) (verdict filters img i))
      as (img' & E' & Hlen' & Hload); [lia | lia |].
    rewrite E', bind_Ret in E. subst res. eexists. split; [reflexivity|].
    split; simpl.
    + congruence.
    + now rewrite length_insert.
    + intros j Hj. destruct (Z.eq_dec j i) as [->|Hne].
      * apply load_insert_eq. lia.
      * rewrite load_insert_ne by lia. apply Hobs. lia.
    + intros j k Hj Hk. rewrite Hload.
      destruct (Z.eq_dec j i) as [->|Hne].
      * destruct (Z.leb_spec (3 * i) (3 * i + k)), (Z.leb_spec (3 * i + k) (3 * i + 2));
          try lia.
        destruct (Z.ltb_spec i (i + 1)); [reflexivity | lia].
      * destruct (Z.leb_spec (3 * i) (3 * j + k)), (Z.leb_spec (3 * j + k) (3 * i + 2));
          simpl; try lia; rewrite Himg by lia;
          destruct (Z.ltb_spec j i), (Z.ltb_spec j (i + 1)); simpl; try lia; reflexivity.
  - subst res. eexists. split; [reflexivity|].
    split; simpl.
    + assumption.
    + now rewrite length_insert.
    + intros j Hj. destruct (Z.eq_dec j i) as [->|Hne].
      * apply load_insert_eq. lia.
      * rewrite load_insert_ne by lia. apply Hobs. lia.
    + intros j k Hj Hk. now rewrite Himg.
Qed.

Lemma raster_ok_fits (img : list Z) (width height : Z) :
  raster_ok img width height -> raster_fits img width height.
Proof. unfold raster_ok, raster_fits. lia. Qed.

Lemma row_pointers_load (rowBytes height y : Z) :
  0 <= y < height -> load (row_pointers rowBytes height) y = Ret (y * rowBytes).
Proof.
  intros Hy. unfold load, row_pointers.
  destruct (Z.ltb_spec y 0); [lia|].
  rewrite list_lookup_fmap, lookup_seq_lt by lia. simpl.
  now rewrite Z2Nat.id by lia.
Qed.

Lemma filter_row_scanned (recolor : bool) (filters : list PNGColor)
    (img : list Z) (width height y : Z) (st : fstate) :
  raster_fits img width height -> ints_ok width height ->
  0 <= y < height ->
  scanned recolor filters img (width * height) (width * y) st ->
  exists st',
    filter_row recolor (row_pointers (3 * width) height) filters width y st = Ret st' /\
    scanned recolor filters img (width * height) (width * (y + 1)) st'.
Proof.
  intros Hfits Hints Hy Hst. unfold filter_row.
  rewrite row_pointers_load, bind_Ret by assumption.
  destruct (for_upto_invariant
              (fun x t => scanned recolor filters img (width * height) (width * y + x) t)
              (filter_px recolor filters width (y * (3 * width)) y) width st)
    as (st' & E & Hst').
  - apply Hfits.
  - now rewrite Z.add_0_r.
  - intros x t Hx Ht.
    destruct (filter_px_scanned recolor filters img width height x y t)
      as (t' & Et & Ht'); auto.
    exists t'. split; [assumption|]. now rewrite Z.add_assoc.
  - exists st'. split; [assumption|].
    now replace (width * (y + 1)) with (width * y + width) by lia.
Qed.

(** The whole scan: on a buffer that holds the image, [filter] returns, and
    what it returns is the state in which all [width * height] pixels are
    done. *)
Lemma filter_scanned (recolor : bool) (filters : list PNGColor)
    (img : list Z) (width height : Z) :
  raster_fits img width height -> ints_ok width height ->
  exists st,
    filter recolor (row_pointers (3 * width) height) filters width height img
      = Ret (obstacle st, image st) /\
    scanned recolor filters img (width * height) (width * height) st.
Proof.
  intros Hfits Hints.
  pose proof Hfits as (Hw & Hh & Hlen). pose proof Hints as (Hwh & _).
  assert (0 <= width * height) as Hn by nia.
  unfold filter, imul.
  rewrite int_of_in_range, bind_Ret by (unfold INT_MIN; lia).
  destruct (Z.ltb_spec (width * height) 0); [lia|].
  destruct (for_upto_invariant
              (fun y t => scanned recolor filters img (width * height) (width * y) t)
              (filter_row recolor (row_pointers (3 * width) height) filters width)
              height
              (mkFstate img (replicate (Z.to_nat (width * height)) false)))
    as (st & E & Hst).
  - assumption.
  - rewrite Z.mul_0_r. now apply scanned_start.
  - intros y t Hy Ht. now apply (filter_row_scanned recolor filters img width height).
  - exists st. rewrite E, bind_Ret. split; [reflexivity | assumption].
Qed.

Lemma obstacle_rule_iff (filters : list PNGColor) (r g b : Z) :
  obstacle_rule filters (r, g, b) = true <->
  (250 < r /\ 250 < g /\ 250 < b) \/
  (exists c, c ∈ filters /\ isObstacle c r g b tolerance = true).
Proof.
  unfold obstacle_rule, near_white, matches_some. simpl.
  rewrite orb_true_iff, !andb_true_iff, !Z.ltb_lt, existsb_exists.
  split.
  - intros [H|(c & Hc & Hm)]; [left; tauto|].
    right. exists c. split; [now apply list_elem_of_In | assumption].
  - intros [H|(c & Hc & Hm)]; [left; tauto|].
    right. exists c. split; [now apply list_elem_of_In | assumption].
Qed.

(** What the final state says about the pixel in column [x] of row [y]. *)
Lemma scanned_pixel_at (recolor : bool) (filters : list PNGColor)
    (img : list Z) (width height x y : Z) (st : fstate) :
  raster_fits img width height ->
  scanned recolor filters img (width * height) (width * height) st ->
  0 <= x < width -> 0 <= y < height ->
  exists p,
    pixel_at img width x y = Ret p /\
    load (obstacle st) (width * y + x) = Ret (obstacle_rule filters p) /\
    (recolor = true ->
     pixel_at (image st) width x y = Ret (paint (obstacle_rule filters p))).
Proof.
  intros (Hw & Hh & Hlen) [Hli Hlo Hobs Himg] Hx Hy.
  assert (0 <= width * y) by nia.
  assert (width * (y + 1) <= width * height) by nia.
  set (i := width * y + x).
  assert (0 <= i < width * height) as Hi by (unfold i; lia).
  destruct (pixel_in_range img i) as (r & g & b & _ & _ & _ & Hp); [lia | lia |].
  assert (verdict filters img i = obstacle_rule filters (r, g, b)) as Hv
    by (unfold verdict; now rewrite Hp).
  exists (r, g, b). unfold pixel_at. fold i. split; [assumption|]. split.
  - rewrite <- Hv. apply Hobs. lia.
  - intros ->. unfold pixel.
    pose proof (Himg i 0 ltac:(lia) ltac:(lia)) as Hred. rewrite Z.add_0_r in Hred.
    rewrite Hred, (Himg i 1), (Himg i 2) by lia. simpl.
    destruct (Z.ltb_spec i (width * height)); [|lia].
    rewrite !bind_Ret, Hv. now destruct (obstacle_rule filters (r, g, b)).
Qed.

(** Two buffers of one length with the same cells are the same buffer. *)
Lemma load_ext {A : Type} (l l' : list A) :
  length l = length l' ->
  (forall j, 0 <= j < Z.of_nat (length l) -> load l j = load l' j) ->
  l = l'.
Proof.
  intros Hlen Hload. apply list_eq. intros n.
  destruct (decide (n < length l)%nat) as [Hn|Hn].
  - specialize (Hload (Z.of_nat n) ltac:(lia)). unfold load in Hload.
    destruct (Z.ltb_spec (Z.of_nat n) 0); [lia|].
    rewrite Nat2Z.id in Hload.
    destruct (lookup_lt_is_Some_2 l n Hn) as [v Hv].
    destruct (lookup_lt_is_Some_2 l' n ltac:(lia)) as [v' Hv'].
    rewrite Hv, Hv' in Hload |- *. congruence.
  - rewrite !(proj2 (lookup_ge_None _ _)); [reflexivity | lia | lia].
Qed.

(** ** Without the recolouring the image is left alone *)

Lemma for_loop_preserves {S T : Type} (f : S -> T) (body : Z -> S -> outcome S)
    (n : nat) :
  (forall j s s', body j s = Ret s' -> f s' = f s) ->
  forall i s s', for_loop n i body s = Ret s' -> f s' = f s.
Proof.
  intros Hbody. induction n as [|n IH]; intros i s s' E; simpl in E.
  - now inversion E.
  - apply bind_Ret_inv in E as (t & Et & E).
    rewrite (IH _ _ _ E). eauto.
Qed.

Lemma filter_px_false_image (filters : list PNGColor) (width row y x : Z)
    (st st' : fstate) :
  filter_px false filters width row y x st = Ret st' -> image st' = image st.
Proof.
  unfold filter_px. intros E.
  apply bind_Ret_inv in E as (off & _ & E).
  apply bind_Ret_inv in E as (white & _ & E).
  apply bind_Ret_inv in E as (isObs & _ & E).
  apply bind_Ret_inv in E as (wy & _ & E).
  apply bind_Ret_inv in E as (idx & _ & E).
  apply bind_Ret_inv in E as (obs' & _ & E).
  now inversion E.
Qed.

Lemma filter_false_image (rowPointers : list Z) (filters : list PNGColor)
    (width height : Z) (img img' : list Z) (grid : list bool) :
  filter false rowPointers filters width height img = Ret (grid, img') ->
  img' = img.
Proof.
  unfold filter. intros E.
  apply bind_Ret_inv in E as (n & _ & E).
  destruct (n <? 0); [discriminate|].
  apply bind_Ret_inv in E as (st & Est & E).
  inversion E; subst.
  apply (for_loop_preserves image) in Est; [assumption|].
  intros y s s' Erow. unfold filter_row in Erow.
  apply bind_Ret_inv in Erow as (row & _ & Erow).
  apply (for_loop_preserves image) in Erow; [assumption|].
  intros x t t'. apply filter_px_false_image.
Qed.

(** The grid does not depend on the recolouring. *)
Lemma filter_grid_recolor (filters : list PNGColor) (img : list Z)
    (width height : Z) (st st' : fstate) :
  scanned true filters img (width * height) (width * height) st ->
  scanned false filters img (width * height) (width * height) st' ->
  obstacle st = obstacle st'.
Proof.
  intros [_ Hlo Hobs _] [_ Hlo' Hobs' _].
  apply load_ext; [lia|].
  intros j Hj. rewrite Hobs, Hobs' by lia. reflexivity.
Qed.

(** ** The claims about [filter] *)

(** C1.  On a [width] by [height] raster [filter] returns a grid whose entry
    at index [y * width + x] is [true] exactly when the three channels of the
    pixel at [(x, y)] all exceed 250 or one of the filters matches the pixel
    within the tolerance; in particular a pixel (255,255,255) is marked as an
    obstacle when the list of filters is empty. *)
Theorem filter_obstacle_iff (recolor : bool) (filters : list PNGColor)
    (width height : Z) (img : list Z) :
  raster_ok img width height -> ints_ok width height ->
  (exists grid img',
     filter recolor (row_pointers (3 * width) height) filters width height img
       = Ret (grid, img') /\
     forall x y, 0 <= x < width -> 0 <= y < height ->
       exists r g b o,
         pixel_at img width x y = Ret (r, g, b) /\
         load grid (y * width + x) = Ret o /\
         (o = true <->
          (250 < r /\ 250 < g /\ 250 < b) \/
          (exists c, c ∈ filters /\ isObstacle c r g b tolerance = true)))
  /\
  (exists grid img',
     filter recolor (row_pointers (3 * width) height) [] width height img
       = Ret (grid, img') /\
     forall x y, 0 <= x < width -> 0 <= y < height ->
       pixel_at img width x y = Ret (255, 255, 255) ->
       load grid (y * width + x) = Ret true).
Proof.
  intros Hok Hints. apply raster_ok_fits in Hok. split.
  - destruct (filter_scanned recolor filters img width height Hok Hints)
      as (st & E & Hst).
    exists (obstacle st), (image st). split; [assumption|].
    intros x y Hx Hy.
    destruct (scanned_pixel_at _ _ _ _ _ x y _ Hok Hst Hx Hy)
      as ([[r g] b] & Hp & Ho & _).
    exists r, g, b, (obstacle_rule filters (r, g, b)).
    split; [assumption|]. split.
    + now rewrite Z.mul_comm.
    + apply obstacle_rule_iff.
  - destruct (filter_scanned recolor [] img width height Hok Hints)
      as (st & E & Hst).
    exists (obstacle st), (image st). split; [assumption|].
    intros x y Hx Hy Hwhite.
    destruct (scanned_pixel_at _ _ _ _ _ x y _ Hok Hst Hx Hy) as (p & Hp & Ho & _).
    rewrite Hwhite in Hp. inversion Hp; subst p.
    now rewrite Z.mul_comm.
Qed.

Lemma filter_obstacle_iff_witness :
  exists grid img',
    filter true (row_pointers (3 * 2) 1)
      [mkPNGColor 126 106 61; mkPNGColor 61 53 6] 2 1
      [255; 255; 255; 120; 100; 60] = Ret (grid, img') /\
    forall x y, 0 <= x < 2 -> 0 <= y < 1 ->
      exists r g b o,
        pixel_at [255; 255; 255; 120; 100; 60] 2 x y = Ret (r, g, b) /\
        load grid (y * 2 + x) = Ret o /\
        (o = true <->
         (250 < r /\ 250 < g /\ 250 < b) \/
         (exists c, c ∈ [mkPNGColor 126 106 61; mkPNGColor 61 53 6] /\
                    isObstacle c r g b tolerance = true)).
Proof.
  apply (filter_obstacle_iff true [mkPNGColor 126 106 61; mkPNGColor 61 53 6]
           2 1 [255; 255; 255; 120; 100; 60]).
  - unfold raster_ok. simpl. lia.
  - unfold ints_ok, INT_MAX. lia.
Defined.

(** C9.  On a [width] by [height] raster [filter] returns a grid of length
    [width * height]; every index below that length is the index
    [width * y + x] of exactly one pixel [(x, y)] of the raster, and the
    entry there is defined: it holds the verdict on that pixel. *)
Theorem filter_grid_complete (recolor : bool) (filters : list PNGColor)
    (width height : Z) (img : list Z) :
  raster_ok img width height -> ints_ok width height ->
  exists grid img',
    filter recolor (row_pointers (3 * width) height) filters width height img
      = Ret (grid, img') /\
    Z.of_nat (length grid) = width * height /\
    forall i, 0 <= i < width * height ->
      exists x y,
        (0 <= x < width /\ 0 <= y < height /\ i = width * y + x) /\
        (forall x' y', 0 <= x' < width -> 0 <= y' < height ->
           i = width * y' + x' -> x' = x /\ y' = y) /\
        exists p, pixel_at img width x y = Ret p /\
                  load grid i = Ret (obstacle_rule filters p).
Proof.
  intros Hok Hints. apply raster_ok_fits in Hok.
  destruct (filter_scanned recolor filters img width height Hok Hints)
    as (st & E & Hst).
  exists (obstacle st), (image st). split; [assumption|].
  split; [apply Hst|].
  intros i Hi.
  assert (0 < width) as Hw by (destruct Hok as (? & ? & _); nia).
  exists (i mod width), (i / width).
  pose proof (Z.mod_pos_bound i width Hw) as Hmod.
  pose proof (Z.div_mod i width ltac:(lia)) as Hdiv.
  assert (0 <= i / width < height) as Hy.
  { split; [apply Z.div_pos; lia|]. apply Z.div_lt_upper_bound; lia. }
  split; [lia|]. split.
  - intros x' y' Hx' Hy' Hi'.
    assert (y' = i / width) as ->.
    { apply (Z.div_unique i width y' x'); lia. }
    lia.
  - destruct (scanned_pixel_at _ _ _ _ _ (i mod width) (i / width) _ Hok Hst Hmod Hy)
      as (p & Hp & Ho & _).
    exists p. split; [assumption|].
    now replace i with (width * (i / width) + i mod width) at 1 by lia.
Qed.

Lemma filter_grid_complete_witness :
  exists grid img',
    filter true (row_pointers (3 * 1) 2) [] 1 2 [255; 255; 255; 0; 0; 0]
      = Ret (grid, img') /\
    Z.of_nat (length grid) = 1 * 2 /\
    forall i, 0 <= i < 1 * 2 ->
      exists x y,
        (0 <= x < 1 /\ 0 <= y < 2 /\ i = 1 * y + x) /\
        (forall x' y', 0 <= x' < 1 -> 0 <= y' < 2 ->
           i = 1 * y' + x' -> x' = x /\ y' = y) /\
        exists p, pixel_at [255; 255; 255; 0; 0; 0] 1 x y = Ret p /\
                  load grid i = Ret (obstacle_rule [] p).
Proof.
  apply (filter_grid_complete true [] 1 2 [255; 255; 255; 0; 0; 0]).
  - unfold raster_ok. simpl. lia.
  - unfold ints_ok, INT_MAX. lia.
Defined.

(** C3.  With the recolouring on, the call leaves every pixel marked as an
    obstacle at (0,0,0) and every other pixel at (255,255,255), and the grid
    it returns is the grid returned with the recolouring off, which leaves
    the image as it was: the verdicts are on the channels as sampled. *)
Theorem filter_recolor (filters : list PNGColor) (width height : Z)
    (img : list Z) :
  raster_ok img width height -> ints_ok width height ->
  exists grid img',
    filter true (row_pointers (3 * width) height) filters width height img
      = Ret (grid, img') /\
    filter false (row_pointers (3 * width) height) filters width height img
      = Ret (grid, img) /\
    forall x y, 0 <= x < width -> 0 <= y < height ->
      exists o,
        load grid (y * width + x) = Ret o /\
        pixel_at img' width x y = Ret (if o then (0, 0, 0) else (255, 255, 255)).
Proof.
  intros Hok Hints. apply raster_ok_fits in Hok.
  destruct (filter_scanned true filters img width height Hok Hints)
    as (st & E & Hst).
  destruct (filter_scanned false filters img width height Hok Hints)
    as (st' & E' & Hst').
  exists (obstacle st), (image st). split; [assumption|]. split.
  - rewrite (filter_grid_recolor _ _ _ _ _ _ Hst Hst').
    rewrite E'. f_equal. f_equal. now apply filter_false_image in E'.
  - intros x y Hx Hy.
    destruct (scanned_pixel_at _ _ _ _ _ x y _ Hok Hst Hx Hy) as (p & _ & Ho & Hp).
    exists (obstacle_rule filters p). split.
    + now rewrite Z.mul_comm.
    + now apply Hp.
Qed.

Lemma filter_recolor_witness :
  exists grid img',
    filter true (row_pointers (3 * 2) 1) [mkPNGColor 126 106 61] 2 1
      [255; 255; 255; 10; 20; 30] = Ret (grid, img') /\
    filter false (row_pointers (3 * 2) 1) [mkPNGColor 126 106 61] 2 1
      [255; 255; 255; 10; 20; 30] = Ret (grid, [255; 255; 255; 10; 20; 30]) /\
    forall x y, 0 <= x < 2 -> 0 <= y < 1 ->
      exists o,
        load grid (y * 2 + x) = Ret o /\
        pixel_at img' 2 x y = Ret (if o then (0, 0, 0) else (255, 255, 255)).
Proof.
  apply (filter_recolor [mkPNGColor 126 106 61] 2 1 [255; 255; 255; 10; 20; 30]).
  - unfold raster_ok. simpl. lia.
  - unfold ints_ok, INT_MAX. lia.
Defined.

(** C8.  With the recolouring off, running [filter] on a raster and then
    again on the raster as the first run leaves it gives the same grid twice:
    the two runs return on every raster, and whenever they return, on any
    buffer, the two grids are equal. *)
Theorem filter_twice_same (filters : list PNGColor) (width height : Z)
    (img : list Z) :
  (raster_ok img width height -> ints_ok width height ->
   exists grid,
     filter_twice (row_pointers (3 * width) height) filters width height img
       = Ret (grid, grid)) /\
  (forall rowPointers grid1 grid2,
     filter_twice rowPointers filters width height img = Ret (grid1, grid2) ->
     grid1 = grid2).
Proof.
  split.
  - intros Hok Hints. apply raster_ok_fits in Hok.
    destruct (filter_scanned false filters img width height Hok Hints)
      as (st & E & Hst).
    exists (obstacle st). unfold filter_twice.
    pose proof (filter_false_image _ _ _ _ _ _ _ E) as Himg.
    rewrite E, bind_Ret. simpl. rewrite Himg, E. reflexivity.
  - intros rowPointers grid1 grid2 E. unfold filter_twice in E.
    apply bind_Ret_inv in E as ([g1 img1] & E1 & E).
    apply bind_Ret_inv in E as ([g2 img2] & E2 & E).
    simpl in *. inversion E; subst.
    pose proof (filter_false_image _ _ _ _ _ _ _ E1) as Himg. subst img1.
    congruence.
Qed.

Lemma filter_twice_same_witness :
  exists grid,
    filter_twice (row_pointers (3 * 2) 1) [mkPNGColor 61 53 6] 2 1
      [255; 255; 255; 60; 50; 5] = Ret (grid, grid).
Proof.
  apply (filter_twice_same [mkPNGColor 61 53 6] 2 1 [255; 255; 255; 60; 50; 5]).
  - unfold raster_ok. simpl. lia.
  - unfold ints_ok, INT_MAX. lia.
Defined.

(** ** A buffer that is too short

    [filter] never compares the dimensions with the size of the buffer.  The
    only thing that can go wrong on a short buffer is an access outside it,
    and with the recolouring on that access is sure to come: at the latest
    when the last pixel is repainted. *)

Lemma load_fault {A : Type} (buf : list A) (i : Z) (f : fault) :
  load buf i = Fail f -> f = OutOfBounds.
Proof.
  unfold load. destruct (i <? 0); [congruence|].
  destruct (buf !! Z.to_nat i); congruence.
Qed.

Lemma is_white_fault (img : list Z) (px : Z) (f : fault) :
  is_white img px = Fail f -> f = OutOfBounds.
Proof.
  unfold is_white.
  destruct (load img px) as [p0|f0] eqn:E0; simpl;
    [|intros [= <-]; now apply load_fault in E0].
  destruct (250 <? p0); [|discriminate].
  destruct (load img (px + 1)) as [p1|f1] eqn:E1; simpl;
    [|intros [= <-]; now apply load_fault in E1].
  destruct (250 <? p1); [|discriminate].
  destruct (load img (px + 2)) as [p2|f2] eqn:E2; simpl;
    [discriminate | intros [= <-]; now apply load_fault in E2].
Qed.

Lemma filters_loop_fault (filters : list PNGColor) (img : list Z) (px : Z)
    (w : bool) (f : fault) :
  filters_loop filters img px w = Fail f -> f = OutOfBounds.
Proof.
  induction filters as [|c rest IH]; simpl; [discriminate|].
  destruct (load img px) as [p0|f0] eqn:E0; simpl;
    [|intros [= <-]; now apply load_fault in E0].
  destruct (load img (px + 1)) as [p1|f1] eqn:E1; simpl;
    [|intros [= <-]; now apply load_fault in E1].
  destruct (load img (px + 2)) as [p2|f2] eqn:E2; simpl;
    [|intros [= <-]; now apply load_fault in E2].
  destruct (isObstacle c p0 p1 p2 tolerance); [discriminate | exact IH].
Qed.

Lemma store_cases {A : Type} (buf : list A) (i : Z) (v : A) :
  (0 <= i < Z.of_nat (length buf) /\ store buf i v = Ret (<[Z.to_nat i := v]> buf)) \/
  (~ 0 <= i < Z.of_nat (length buf) /\ store buf i v = Fail OutOfBounds).
Proof.
  unfold store.
  destruct (Z.leb_spec 0 i), (Z.ltb_spec i (Z.of_nat (length buf))); simpl;
    [left | right | right | right]; split; auto; lia.
Qed.

Lemma recolor_px_short (img : list Z) (px : Z) (isObs : bool) :
  Z.of_nat (length img) <= px + 2 ->
  recolor_px img px isObs = Fail OutOfBounds.
Proof.
  intros Hshort. unfold recolor_px.
  set (v := if isObs then 0 else 255).
  destruct (store_cases img px v) as [[H0 ->]|[_ ->]]; [|reflexivity].
  rewrite bind_Ret.
  destruct (store_cases (<[Z.to_nat px := v]> img) (px + 1) v) as [[H1 ->]|[_ ->]];
    [|reflexivity].
  rewrite bind_Ret.
  destruct (store_cases (<[Z.to_nat (px + 1) := v]> (<[Z.to_nat px := v]> img)) (px + 2) v)
    as [[H2 _]|[_ ->]]; [|reflexivity].
  rewrite !length_insert in H2. lia.
Qed.

Lemma filter_px_true_cases (filters : list PNGColor) (img : list Z)
    (width height x y : Z) (st : fstate) :
  ints_ok width height ->
  0 <= x < width -> 0 <= y < height ->
  sized img (width * height) st ->
  (exists st',
     filter_px true filters width (y * (3 * width)) y x st = Ret st' /\
     sized img (width * height) st') \/
  (Z.of_nat (length img) <= 3 * (width * y + x) + 2 /\
   filter_px true filters width (y * (3 * width)) y x st = Fail OutOfBounds).
Proof.
  intros (Hwh & Hw3) Hx Hy (Hli & Hlo).
  set (i := width * y + x).
  assert (0 <= width * y) as Hwy0 by nia.
  assert (width * (y + 1) <= width * height) as Hrow by nia.
  assert (0 <= i < width * height) as Hi by (unfold i; lia).
  remember (filter_px true filters width (y * (3 * width)) y x st) as res eqn:E.
  unfold filter_px, imul, iadd in E.
  rewrite (int_of_in_range (x * 3)), bind_Ret in E by (unfold INT_MIN; lia).
  replace (y * (3 * width) + x * 3) with (3 * i) in E by (unfold i; lia).
  assert (Z.of_nat (length img) <= 3 * i + 2 \/ 3 * i + 2 < Z.of_nat (length img))
    as [Hshort|Hin] by lia.
  - right. split; [assumption|]. subst res.
    destruct (is_white (image st) (3 * i)) as [w|f] eqn:Ew;
      [|apply is_white_fault in Ew; now subst f].
    rewrite bind_Ret.
    destruct (filters_loop filters (image st) (3 * i) w) as [o|f] eqn:Ef;
      [|apply filters_loop_fault in Ef; now subst f].
    rewrite bind_Ret.
    rewrite (int_of_in_range (width * y)), bind_Ret by (unfold INT_MIN; lia).
    rewrite (int_of_in_range (width * y + x)), bind_Ret
      by (fold i; unfold INT_MIN; lia).
    fold i. rewrite store_in_range, bind_Ret by lia.
    now rewrite recolor_px_short by lia.
  - left.
    destruct (load_in_range (image st) (3 * i)) as [r Hr]; [lia|].
    destruct (load_in_range (image st) (3 * i + 1)) as [g Hg]; [lia|].
    destruct (load_in_range (image st) (3 * i + 2)) as [b Hb]; [lia|].
    rewrite (is_white_spec _ _ r g b Hr Hg Hb), bind_Ret in E.
    rewrite (filters_loop_spec _ _ _ r g b _ Hr Hg Hb), bind_Ret in E.
    rewrite (int_of_in_range (width * y)), bind_Ret in E by (unfold INT_MIN; lia).
    rewrite (int_of_in_range (width * y + x)), bind_Ret in E
      by (fold i; unfold INT_MIN; lia).
    fold i in E. rewrite store_in_range, bind_Ret in E by lia.
    match type of E with context [recolor_px ?m ?a ?o] =>
      destruct (recolor_px_spec m a o) as (img' & E' & Hlen' & _); [lia | lia |]
    end.
    rewrite E', bind_Ret in E. subst res. eexists. split; [reflexivity|].
    split; simpl; [congruence | now rewrite length_insert].
Qed.

(** A loop in which every iteration either keeps the invariant or fails with
    [f] ends in one of the two ways; if one of its iterations is sure to
    fail, so does the loop. *)
Lemma for_loop_either {S : Type} (P : Z -> S -> Prop)
    (body : Z -> S -> outcome S) (f : fault) (n : nat) :
  forall (i : Z) (s : S),
    P i s ->
    (forall j t, i <= j < i + Z.of_nat n -> P j t ->
       (exists t', body j t = Ret t' /\ P (j + 1) t') \/ body j t = Fail f) ->
    (exists s', for_loop n i body s = Ret s' /\ P (i + Z.of_nat n) s') \/
    for_loop n i body s = Fail f.
Proof.
  induction n as [|n IH]; intros i s Hs Hbody; simpl.
  - left. exists s. split; [reflexivity|].
    now replace (i + Z.of_nat 0) with i by lia.
  - destruct (Hbody i s) as [(t & Ht & HP)| ->]; [lia | assumption | | now right].
    rewrite Ht, bind_Ret.
    destruct (IH (i + 1) t HP) as [(s' & Hs' & HP')|Hf].
    + intros j u Hj. apply Hbody. lia.
    + left. exists s'. split; [assumption|].
      now replace (i + Z.of_nat (Datatypes.S n)) with (i + 1 + Z.of_nat n) by lia.
    + now right.
Qed.

Lemma for_loop_fails {S : Type} (P : Z -> S -> Prop)
    (body : Z -> S -> outcome S) (f : fault) (b : Z) (n : nat) :
  forall (i : Z) (s : S),
    P i s ->
    i <= b < i + Z.of_nat n ->
    (forall j t, i <= j < i + Z.of_nat n -> P j t ->
       (exists t', body j t = Ret t' /\ P (j + 1) t') \/ body j t = Fail f) ->
    (forall t, P b t -> body b t = Fail f) ->
    for_loop n i body s = Fail f.
Proof.
  induction n as [|n IH]; intros i s Hs Hb Hbody Hbad; simpl; [lia|].
  destruct (Hbody i s) as [(t & Ht & HP)| ->]; [lia | assumption | | reflexivity].
  rewrite Ht, bind_Ret.
  destruct (Z.eq_dec b i) as [->|Hne].
  - rewrite (Hbad s Hs) in Ht. discriminate.
  - apply IH; [assumption | lia | | assumption].
    intros j u Hj. apply Hbody. lia.
Qed.

Lemma filter_row_true_cases (filters : list PNGColor) (img : list Z)
    (width height y : Z) (st : fstate) :
  0 <= width -> ints_ok width height -> 0 <= y < height ->
  sized img (width * height) st ->
  (exists st',
     filter_row true (row_pointers (3 * width) height) filters width y st = Ret st' /\
     sized img (width * height) st') \/
  filter_row true (row_pointers (3 * width) height) filters width y st
    = Fail OutOfBounds.
Proof.
  intros Hw Hints Hy Hst. unfold filter_row.
  rewrite row_pointers_load, bind_Ret by assumption. unfold for_upto.
  destruct (for_loop_either (fun _ t => sized img (width * height) t)
              (filter_px true filters width (y * (3 * width)) y) OutOfBounds
              (Z.to_nat width) 0 st Hst) as [(st' & E & Hst')|E].
  - intros x t Hx Ht.
    destruct (filter_px_true_cases filters img width height x y t)
      as [Hret|[_ Hfail]]; auto; lia.
  - left. now exists st'.
  - now right.
Qed.

Lemma filter_row_true_last (filters : list PNGColor) (img : list Z)
    (width height : Z) (st : fstate) :
  0 < width -> 0 < height -> ints_ok width height ->
  Z.of_nat (length img) < 3 * width * height ->
  sized img (width * height) st ->
  filter_row true (row_pointers (3 * width) height) filters width (height - 1) st
    = Fail OutOfBounds.
Proof.
  intros Hw Hh Hints Hshort Hst. unfold filter_row.
  rewrite row_pointers_load, bind_Ret by lia. unfold for_upto.
  apply (for_loop_fails (fun _ t => sized img (width * height) t) _ _ (width - 1));
    [assumption | lia | |].
  - intros x t Hx Ht.
    destruct (filter_px_true_cases filters img width height x (height - 1) t)
      as [Hret|[_ Hfail]]; auto; lia.
  - intros t Ht.
    destruct (filter_px_true_cases filters img width height (width - 1) (height - 1) t)
      as [(t' & Et & (Hli & _))|[_ Hfail]]; auto; try lia.
    exfalso.
    unfold filter_px in Et.
    apply bind_Ret_inv in Et as (off & Eoff & Et).
    apply bind_Ret_inv in Et as (white & _ & Et).
    apply bind_Ret_inv in Et as (isObs & _ & Et).
    apply bind_Ret_inv in Et as (wy & _ & Et).
    apply bind_Ret_inv in Et as (idx & _ & Et).
    apply bind_Ret_inv in Et as (obs' & _ & Et).
    apply bind_Ret_inv in Et as (img' & Erec & _).
    unfold imul, int_of in Eoff. destruct (in_int _); [|discriminate].
    inversion Eoff; subst off.
    rewrite recolor_px_short in Erec; [discriminate|].
    destruct Ht as (Hlt & _). rewrite Hlt. nia.
Qed.

(** C5, as the code has it.  [filter] makes no check of the dimensions
    against the buffer.  For dimensions in the range of [int]: on any buffer
    that holds at least [3 * width * height] bytes, be it longer, it returns
    the fully populated grid of the pixels it finds in the first
    [3 * width * height] bytes; on a shorter buffer the run (compiled as it
    is, with the recolouring on) ends in an access outside the buffer. *)
Theorem filter_buffer_size (filters : list PNGColor) (width height : Z)
    (img : list Z) :
  0 <= width -> 0 <= height -> ints_ok width height ->
  (3 * width * height <= Z.of_nat (length img) ->
   forall recolor, exists grid img',
     filter recolor (row_pointers (3 * width) height) filters width height img
       = Ret (grid, img') /\
     Z.of_nat (length grid) = width * height /\
     forall i, 0 <= i < width * height ->
       exists p, pixel img i = Ret p /\ load grid i = Ret (obstacle_rule filters p))
  /\
  (Z.of_nat (length img) < 3 * width * height ->
   filter PRINT_FILTERED_IMAGE (row_pointers (3 * width) height) filters
     width height img = Fail OutOfBounds).
Proof.
  intros Hw Hh Hints. split.
  - intros Hlen recolor.
    assert (raster_fits img width height) as Hfits by (unfold raster_fits; auto).
    destruct (filter_scanned recolor filters img width height Hfits Hints)
      as (st & E & [Hli Hlo Hobs Himg]).
    exists (obstacle st), (image st). split; [assumption|]. split; [assumption|].
    intros i Hi.
    destruct (pixel_in_range img i) as (r & g & b & _ & _ & _ & Hp); [lia | lia |].
    exists (r, g, b). split; [assumption|].
    rewrite Hobs by lia. unfold verdict. now rewrite Hp.
  - intros Hshort. pose proof Hints as (Hwh & _).
    assert (0 < width /\ 0 < height) as (Hw' & Hh') by nia.
    assert (0 <= width * height) as Hn by nia.
    unfold PRINT_FILTERED_IMAGE, filter, imul.
    rewrite int_of_in_range, bind_Ret by (unfold INT_MIN; lia).
    destruct (Z.ltb_spec (width * height) 0); [lia|].
    unfold for_upto.
    rewrite (for_loop_fails (fun _ t => sized img (width * height) t)
               _ OutOfBounds (height - 1)); [reflexivity | | lia | |].
    + split; simpl; [reflexivity | rewrite length_replicate; lia].
    + intros y t Hy Ht.
      apply (filter_row_true_cases filters img width height); auto; lia.
    + intros t Ht. now apply (filter_row_true_last filters img).
Qed.

Lemma filter_buffer_size_witness :
  (3 * 1 * 1 <= Z.of_nat (length [255; 255; 255; 9; 9; 9]) ->
   forall recolor, exists grid img',
     filter recolor (row_pointers (3 * 1) 1) [] 1 1 [255; 255; 255; 9; 9; 9]
       = Ret (grid, img') /\
     Z.of_nat (length grid) = 1 * 1 /\
     forall i, 0 <= i < 1 * 1 ->
       exists p, pixel [255; 255; 255; 9; 9; 9] i = Ret p /\
                 load grid i = Ret (obstacle_rule [] p))
  /\
  (Z.of_nat (length [255; 255; 255; 9; 9; 9]) < 3 * 1 * 1 ->
   filter PRINT_FILTERED_IMAGE (row_pointers (3 * 1) 1) [] 1 1
     [255; 255; 255; 9; 9; 9] = Fail OutOfBounds).
Proof.
  apply (filter_buffer_size [] 1 1 [255; 255; 255; 9; 9; 9]).
  - lia.
  - lia.
  - unfold ints_ok, INT_MAX. lia.
Defined.

(** C5 as stated fails: a buffer of another length than the dimensions call
    for is not rejected.  A buffer that is too long gives a grid; one that is
    too short is read and written until the scan leaves it, here after the
    first pixel has been classified and repainted. *)
Lemma filter_dimensions_unchecked :
  (Z.of_nat (length [255; 255; 255; 9; 9; 9]) <> 3 * 1 * 1 /\
   filter PRINT_FILTERED_IMAGE (row_pointers (3 * 1) 1) [] 1 1
     [255; 255; 255; 9; 9; 9] = Ret ([true], [0; 0; 0; 9; 9; 9]))
  /\
  (Z.of_nat (length [255; 255; 255; 9]) <> 3 * 2 * 1 /\
   filter PRINT_FILTERED_IMAGE (row_pointers (3 * 2) 1) [] 2 1
     [255; 255; 255; 9] = Fail OutOfBounds /\
   filter_px PRINT_FILTERED_IMAGE [] 2 0 0 0 (mkFstate [255; 255; 255; 9] [false; false])
     = Ret (mkFstate [0; 0; 0; 9] [true; false]) /\
   filter_px PRINT_FILTERED_IMAGE [] 2 0 0 1 (mkFstate [0; 0; 0; 9] [true; false])
     = Fail OutOfBounds).
Proof.
  repeat split; try (simpl; lia); reflexivity.
Qed.

(** ** The SVG output *)

Section OutputProperties.

Context {Scalar : Type}.

Implicit Types (solution : list (State Scalar)) (v : Visitor Scalar).
Implicit Types (traversal : list (callback Scalar)) (out : list (svg_call Scalar)).

Lemma solution_loop_spec (a : State Scalar) (rest : list (State Scalar)) :
  exists segs,
    solution_loop (a :: rest) = Ret segs /\
    length segs = length rest /\
    forall i p q, (a :: rest) !! i = Some p -> rest !! i = Some q ->
      segs !! i = Some (addSolutionEdge p.1 p.2 q.1 q.2).
Proof.
  revert a. induction rest as [|b rest IH]; intros a.
  - exists []. repeat split. intros i p q _ Hq. discriminate.
  - destruct (IH b) as (segs & E & Hlen & Hseg).
    exists (addSolutionEdge a.1 a.2 b.1 b.2 :: segs).
    split; [|split].
    + change (solution_loop (a :: b :: rest))
        with (solution_loop (b :: rest) ≫=
                fun segs => mret (addSolutionEdge a.1 a.2 b.1 b.2 :: segs)).
      now rewrite E.
    + simpl. now rewrite Hlen.
    + intros [|i] p q Hp Hq; simpl in *.
      * now inversion Hp; inversion Hq; subst.
      * now apply Hseg.
Qed.

(** The counter and the stream after a traversal: every call of [edge]
    counts, and the calls that find the counter below 10,000 draw. *)
Lemma visitGraph_spec traversal :
  forall v (count : Z) out,
    0 <= count ->
    count + Z.of_nat (length (delivered traversal (from_ v))) <= INT_MAX ->
    visitGraph traversal v count out =
      Ret (count + Z.of_nat (length (delivered traversal (from_ v))),
           out ++ (visited_segment <$>
                     take (Z.to_nat (10000 - count)) (delivered traversal (from_ v)))).
Proof.
  induction traversal as [|[q|to] rest IH]; intros v c out Hc Hmax; simpl in *.
  - now rewrite take_nil, app_nil_r, Z.add_0_r.
  - now rewrite (IH (vertex q v) c out).
  - unfold edge, iadd.
    rewrite int_of_in_range, bind_Ret by (unfold INT_MIN; lia).
    destruct (Z.ltb_spec 10000 (c + 1)) as [Hfull|Hroom]; simpl.
    + rewrite (IH v (c + 1) out) by lia.
      replace (Z.to_nat (10000 - (c + 1))) with 0%nat by lia.
      replace (Z.to_nat (10000 - c)) with 0%nat by lia.
      f_equal. f_equal. lia.
    + rewrite (IH v (c + 1) _) by lia.
      replace (Z.to_nat (10000 - c)) with (S (Z.to_nat (10000 - (c + 1)))) by lia.
      simpl. rewrite <- app_assoc. simpl.
      f_equal. f_equal. lia.
Qed.

Lemma write_solution_nonempty (width height : Z) (inputName : string)
    (s0 : State Scalar) (srest : list (State Scalar)) traversal
    (uninit : State Scalar) (p : process Scalar) :
  0 <= count p ->
  count p + Z.of_nat (length (delivered traversal uninit)) <= INT_MAX ->
  exists path,
    draw_solution (s0 :: srest) = Ret path /\
    write_solution width height inputName (s0 :: srest) traversal uninit p =
      Ret (mkProcess
             (count p + Z.of_nat (length (delivered traversal uninit)))
             (log p ++ ["Writing the solution to png_2d_demo.svg"])
             (Some ([startSvg width height; addImage inputName] ++ path ++
                    (visited_segment <$>
                       take (Z.to_nat (10000 - count p)) (delivered traversal uninit)) ++
                    [endSvg]))).
Proof.
  intros Hc Hmax.
  destruct (solution_loop_spec s0 srest) as (path & E & _).
  exists path. split; [exact E|].
  unfold write_solution.
  change (draw_solution (s0 :: srest)) with (solution_loop (s0 :: srest)).
  rewrite E, bind_Ret.
  rewrite (visitGraph_spec traversal (new_Visitor uninit)) by assumption.
  rewrite bind_Ret. simpl. now rewrite <- !app_assoc.
Qed.

(** C6.  For a solution of N points the loop of lines 157-165 returns
    without error; for N >= 2 it draws N-1 segments, the i-th from point i
    to point i+1 of the solution, so each starts where the one before it
    ends; for N < 2 it draws nothing. *)
Theorem draw_solution_segments solution :
  exists segs,
    draw_solution solution = Ret segs /\
    ((2 <= length solution)%nat ->
     length segs = (length solution - 1)%nat /\
     forall i p q, solution !! i = Some p -> solution !! S i = Some q ->
       segs !! i = Some (addSolutionEdge p.1 p.2 q.1 q.2)) /\
    ((length solution < 2)%nat -> segs = []).
Proof.
  destruct solution as [|a rest].
  - exists []. split; [reflexivity|]. split; [simpl; lia | reflexivity].
  - destruct (solution_loop_spec a rest) as (segs & E & Hlen & Hseg).
    exists segs. split; [exact E|]. split.
    + intros _. split; [simpl; lia|].
      intros i p q Hp Hq. now apply Hseg.
    + simpl. intros Hn. destruct segs; [reflexivity|].
      simpl in Hlen. lia.
Qed.

(** C2.  In the traversal the program makes, which finds the counter at
    its initial value, the edges delivered are drawn in the order of
    delivery up to the 10,000th and the later ones are dropped; the
    traversal returns.  Of 10,050 edges delivered 10,000 are drawn.  (The
    counter is an [int]: the traversal is taken to deliver no more edges
    than [INT_MAX].) *)
Theorem visited_edges_capped traversal v out :
  Z.of_nat (length (delivered traversal (from_ v))) <= INT_MAX ->
  visitGraph traversal v (count (@process_start Scalar)) out =
    Ret (Z.of_nat (length (delivered traversal (from_ v))),
         out ++ (visited_segment <$>
                   take (Z.to_nat 10000) (delivered traversal (from_ v))))
  /\
  (Z.of_nat (length (delivered traversal (from_ v))) = 10050 ->
   Z.of_nat (length (visited_segment <$>
                       take (Z.to_nat 10000) (delivered traversal (from_ v))))
     = 10000).
Proof.
  intros Hmax. split.
  - rewrite visitGraph_spec by (simpl; lia). simpl count.
    now rewrite Z.add_0_l, Z.sub_0_r.
  - intros Hlen. rewrite length_fmap, length_take. lia.
Qed.

(** C10.  With an empty solution lines 144-195 only log a message: the
    file is not opened and none of [startSvg], [addImage],
    [addSolutionEdge], [addVisitedEdge], [endSvg] is called.  With a
    non-empty solution the file is written: header, image, the path, the
    visited edges, footer. *)
Theorem write_solution_document (width height : Z) (inputName : string)
    solution traversal (uninit : State Scalar) (p : process Scalar) :
  0 <= count p ->
  count p + Z.of_nat (length (delivered traversal uninit)) <= INT_MAX ->
  (solution = [] ->
   write_solution width height inputName solution traversal uninit p =
     Ret (mkProcess (count p) (log p ++ ["No solution was found"]) (svg_file p)))
  /\
  (solution <> [] ->
   exists path,
     draw_solution solution = Ret path /\
     write_solution width height inputName solution traversal uninit p =
       Ret (mkProcess
              (count p + Z.of_nat (length (delivered traversal uninit)))
              (log p ++ ["Writing the solution to png_2d_demo.svg"])
              (Some ([startSvg width height; addImage inputName] ++ path ++
                     (visited_segment <$>
                        take (Z.to_nat (10000 - count p))
                          (delivered traversal uninit)) ++
                     [endSvg])))).
Proof.
  intros Hc Hmax. split.
  - intros ->. reflexivity.
  - intros Hne. destruct solution as [|s0 srest]; [congruence|].
    now apply write_solution_nonempty.
Qed.


End OutputProperties.

Lemma draw_solution_segments_witness :
  exists segs,
    draw_solution [(0, 0); (50, 50); (99, 99)] = Ret segs /\
    ((2 <= length [(0, 0); (50, 50); (99, 99)])%nat ->
     length segs = (length [(0, 0); (50, 50); (99, 99)] - 1)%nat /\
     forall i p q,
       [(0, 0); (50, 50); (99, 99)] !! i = Some p ->
       [(0, 0); (50, 50); (99, 99)] !! S i = Some q ->
       segs !! i = Some (addSolutionEdge p.1 p.2 q.1 q.2)) /\
    ((length [(0, 0); (50, 50); (99, 99)] < 2)%nat -> segs = []).
Proof. exact (draw_solution_segments [(0, 0); (50, 50); (99, 99)]). Defined.

Lemma visited_edges_capped_witness :
  visitGraph [on_vertex (1, 1); on_edge (2, 2); on_edge (3, 3)]
    (new_Visitor (0, 0)) (count (@process_start Z)) [] =
  Ret (2, [addVisitedEdge 1 1 2 2; addVisitedEdge 1 1 3 3]).
Proof.
  apply (visited_edges_capped [on_vertex (1, 1); on_edge (2, 2); on_edge (3, 3)]
           (new_Visitor (0, 0)) []).
  unfold INT_MAX. simpl. lia.
Defined.

Lemma write_solution_document_witness :
  exists path,
    draw_solution [(0, 0); (3, 3)] = Ret path /\
    write_solution 4 4 "in.png" [(0, 0); (3, 3)] [on_vertex (0, 0); on_edge (1, 1)]
      (7, 7) (@process_start Z) =
      Ret (mkProcess
             (count (@process_start Z) +
              Z.of_nat (length (delivered [on_vertex (0, 0); on_edge (1, 1)] (7, 7))))
             (log (@process_start Z) ++ ["Writing the solution to png_2d_demo.svg"])
             (Some ([startSvg 4 4; addImage "in.png"] ++ path ++
                    (visited_segment <$>
                       take (Z.to_nat (10000 - count (@process_start Z)))
                         (delivered [on_vertex (0, 0); on_edge (1, 1)] (7, 7))) ++
                    [endSvg]))).
Proof.
  apply (write_solution_document 4 4 "in.png" [(0, 0); (3, 3)]
           [on_vertex (0, 0); on_edge (1, 1)] (7, 7) process_start).
  - simpl. lia.
  - unfold INT_MAX. simpl. lia.
  - discriminate.
Defined.


(** ** The colour match *)

(** C7.  [isObstacle] answers [true] exactly when each of the three channels
    is within the tolerance of the reference; for the reference
    (100,100,100) and tolerance 15 the pixel (115,115,115) matches and the
    pixel (116,100,100) does not. *)
Theorem isObstacle_iff :
  (forall c red green blue tol,
     isObstacle c red green blue tol = true <->
     Z.abs (red - ref_red c) <= tol /\
     Z.abs (green - ref_green c) <= tol /\
     Z.abs (blue - ref_blue c) <= tol)
  /\ isObstacle (mkPNGColor 100 100 100) 115 115 115 15 = true
  /\ isObstacle (mkPNGColor 100 100 100) 116 100 100 15 = false.
Proof.
  split; [|split; reflexivity].
  intros c red green blue tol. unfold isObstacle.
  rewrite !andb_true_iff, !Z.leb_le. tauto.
Qed.

(** * Further properties of [filter] *)

(** ** The list of filters *)

Lemma matches_some_iff (filters : list PNGColor) (p : Z * Z * Z) :
  matches_some filters p = true <->
  exists c, c ∈ filters /\ isObstacle c p.1.1 p.1.2 p.2 tolerance = true.
Proof.
  unfold matches_some. rewrite existsb_exists.
  split; intros (c & Hc & Hm); exists c; split; auto; now apply list_elem_of_In.
Qed.

Lemma matches_some_subset (filters filters' : list PNGColor) (p : Z * Z * Z) :
  (forall c, c ∈ filters -> c ∈ filters') ->
  matches_some filters p = true -> matches_some filters' p = true.
Proof.
  intros Hsub. rewrite !matches_some_iff.
  intros (c & Hc & Hm). exists c. auto.
Qed.

Lemma matches_some_same_set (filters filters' : list PNGColor) (p : Z * Z * Z) :
  (forall c, c ∈ filters <-> c ∈ filters') ->
  matches_some filters p = matches_some filters' p.
Proof.
  intros Hset. apply eq_true_iff_eq.
  split; apply matches_some_subset; intros c; apply Hset.
Qed.

Lemma filters_loop_same_set (filters filters' : list PNGColor) (img : list Z)
    (px : Z) (w : bool) :
  (forall c, c ∈ filters <-> c ∈ filters') ->
  filters_loop filters img px w = filters_loop filters' img px w.
Proof.
  intros Hset.
  destruct filters as [|c rest], filters' as [|c' rest'].
  - reflexivity.
  - exfalso. apply (elem_of_nil c'), Hset. left.
  - exfalso. apply (elem_of_nil c), Hset. left.
  - destruct (load img px) as [r|f] eqn:Er;
      [|simpl; now rewrite Er].
    destruct (load img (px + 1)) as [g|f] eqn:Eg;
      [|simpl; now rewrite Er, Eg].
    destruct (load img (px + 2)) as [b|f] eqn:Eb;
      [|simpl; now rewrite Er, Eg, Eb].
    rewrite !(filters_loop_spec _ _ _ r g b _ Er Eg Eb).
    now rewrite (matches_some_same_set _ _ _ Hset).
Qed.

Lemma for_loop_ext {S : Type} (body body' : Z -> S -> outcome S) (n : nat) :
  (forall j s, body j s = body' j s) ->
  forall i s, for_loop n i body s = for_loop n i body' s.
Proof.
  intros Hbody. induction n as [|n IH]; intros i s; simpl; [reflexivity|].
  rewrite Hbody. destruct (body' i s) as [t|f]; simpl; [apply IH | reflexivity].
Qed.

(** X1.  Only the set of the filters counts: two lists with the same
    members, in whatever order and however often repeated, give the same
    run of [filter] on every input, be it a grid and an image or a fault. *)
Theorem filter_same_filters (recolor : bool) (rowPointers : list Z)
    (filters filters' : list PNGColor) (width height : Z) (img : list Z) :
  (forall c, c ∈ filters <-> c ∈ filters') ->
  filter recolor rowPointers filters width height img =
  filter recolor rowPointers filters' width height img.
Proof.
  intros Hset. unfold filter.
  destruct (imul width height) as [n|f]; simpl; [|reflexivity].
  destruct (n <? 0); [reflexivity|].
  unfold for_upto.
  rewrite (for_loop_ext (filter_row recolor rowPointers filters width)
             (filter_row recolor rowPointers filters' width)); [reflexivity|].
  intros y st. unfold filter_row.
  destruct (load rowPointers y) as [row|f]; simpl; [|reflexivity].
  apply for_loop_ext. intros x t. unfold filter_px.
  destruct (imul x 3) as [off|f]; simpl; [|reflexivity].
  destruct (is_white (image t) (row + off)) as [w|f]; simpl; [|reflexivity].
  now rewrite (filters_loop_same_set filters filters').
Qed.

Lemma filter_same_filters_witness :
  filter true (row_pointers 6 1)
    [mkPNGColor 126 106 61; mkPNGColor 61 53 6] 2 1 [120; 100; 60; 9; 9; 9] =
  filter true (row_pointers 6 1)
    [mkPNGColor 61 53 6; mkPNGColor 126 106 61; mkPNGColor 61 53 6] 2 1
    [120; 100; 60; 9; 9; 9].
Proof.
  apply filter_same_filters.
  intros c. rewrite !elem_of_cons, !elem_of_nil. tauto.
Defined.

Lemma verdict_subset (filters filters' : list PNGColor) (img : list Z) (i : Z) :
  (forall c, c ∈ filters -> c ∈ filters') ->
  verdict filters img i = true -> verdict filters' img i = true.
Proof.
  intros Hsub. unfold verdict. destruct (pixel img i) as [p|f]; [|discriminate].
  unfold obstacle_rule. rewrite !orb_true_iff.
  intros [Hw|Hm]; [now left | right; now apply (matches_some_subset filters)].
Qed.

(** X2.  More filters, more obstacles: when every filter of one list is in
    another, each pixel the first list marks as an obstacle is marked by the
    second one too. *)
Theorem filter_more_filters (recolor : bool) (filters filters' : list PNGColor)
    (width height : Z) (img : list Z) :
  raster_fits img width height -> ints_ok width height ->
  (forall c, c ∈ filters -> c ∈ filters') ->
  exists grid img1 grid' img1',
    filter recolor (row_pointers (3 * width) height) filters width height img
      = Ret (grid, img1) /\
    filter recolor (row_pointers (3 * width) height) filters' width height img
      = Ret (grid', img1') /\
    forall i, load grid i = Ret true -> load grid' i = Ret true.
Proof.
  intros Hfits Hints Hsub.
  destruct (filter_scanned recolor filters img width height Hfits Hints)
    as (st & E & [_ Hlo Hobs _]).
  destruct (filter_scanned recolor filters' img width height Hfits Hints)
    as (st' & E' & [_ Hlo' Hobs' _]).
  exists (obstacle st), (image st), (obstacle st'), (image st').
  split; [assumption|]. split; [assumption|].
  intros i Hi. pose proof (load_Ret_range _ _ _ Hi) as Hrange.
  rewrite Hobs in Hi by lia. rewrite Hobs' by lia.
  inversion Hi as [Hv]. rewrite Hv.
  now rewrite (verdict_subset filters filters' img i Hsub Hv).
Qed.

Lemma filter_more_filters_witness :
  exists grid img1 grid' img1',
    filter true (row_pointers (3 * 2) 1) [mkPNGColor 126 106 61] 2 1
      [120; 100; 60; 60; 50; 5] = Ret (grid, img1) /\
    filter true (row_pointers (3 * 2) 1)
      [mkPNGColor 126 106 61; mkPNGColor 61 53 6] 2 1
      [120; 100; 60; 60; 50; 5] = Ret (grid', img1') /\
    forall i, load grid i = Ret true -> load grid' i = Ret true.
Proof.
  apply (filter_more_filters true [mkPNGColor 126 106 61]
           [mkPNGColor 126 106 61; mkPNGColor 61 53 6] 2 1 [120; 100; 60; 60; 50; 5]).
  - unfold raster_fits. simpl. lia.
  - unfold ints_ok, INT_MAX. lia.
  - intros c. rewrite !elem_of_cons. tauto.
Defined.

(** ** What a run leaves behind *)

Lemma scanned_repainted (filters : list PNGColor) (img : list Z) (n i : Z)
    (st : fstate) :
  scanned true filters img n n st -> 0 <= i < n ->
  pixel (image st) i = Ret (paint (verdict filters img i)).
Proof.
  intros [_ _ _ Himg] Hi. unfold pixel.
  pose proof (Himg i 0 ltac:(lia) ltac:(lia)) as Hred. rewrite Z.add_0_r in Hred.
  rewrite Hred, (Himg i 1), (Himg i 2) by lia. simpl.
  destruct (Z.ltb_spec i n); [|lia].
  rewrite !bind_Ret. now destruct (verdict filters img i).
Qed.

(** X3.  The recolouring is not idempotent.  Run on the image it has
    repainted, [filter] returns the complement of the grid it returned first:
    the black it painted on the obstacles is free space, unless a filter
    matches (0,0,0), and the white it painted on the free space is an
    obstacle. *)
Theorem filter_recolor_twice (filters : list PNGColor) (width height : Z)
    (img : list Z) :
  raster_fits img width height -> ints_ok width height ->
  matches_some filters (0, 0, 0) = false ->
  exists grid1 img1 grid2 img2,
    filter true (row_pointers (3 * width) height) filters width height img
      = Ret (grid1, img1) /\
    filter true (row_pointers (3 * width) height) filters width height img1
      = Ret (grid2, img2) /\
    forall i, 0 <= i < width * height ->
      exists o, load grid1 i = Ret o /\ load grid2 i = Ret (negb o).
Proof.
  intros Hfits Hints Hblack.
  destruct (filter_scanned true filters img width height Hfits Hints)
    as (st1 & E1 & Hst1).
  assert (raster_fits (image st1) width height) as Hfits1.
  { destruct Hfits as (Hw & Hh & Hlen). repeat split; auto.
    now rewrite (scanned_image_length _ _ _ _ _ _ Hst1). }
  destruct (filter_scanned true filters (image st1) width height Hfits1 Hints)
    as (st2 & E2 & Hst2).
  exists (obstacle st1), (image st1), (obstacle st2), (image st2).
  split; [assumption|]. split; [assumption|].
  intros i Hi. exists (verdict filters img i).
  split; [now apply (scanned_obstacle _ _ _ _ _ _ Hst1)|].
  rewrite (scanned_obstacle _ _ _ _ _ _ Hst2) by assumption.
  f_equal. unfold verdict at 1.
  rewrite (scanned_repainted _ _ _ _ _ Hst1 Hi).
  destruct (verdict filters img i); simpl.
  - unfold obstacle_rule. now rewrite Hblack.
  - reflexivity.
Qed.

Lemma filter_recolor_twice_witness :
  exists grid1 img1 grid2 img2,
    filter true (row_pointers (3 * 2) 1)
      [mkPNGColor 126 106 61; mkPNGColor 61 53 6] 2 1
      [255; 255; 255; 90; 90; 90] = Ret (grid1, img1) /\
    filter true (row_pointers (3 * 2) 1)
      [mkPNGColor 126 106 61; mkPNGColor 61 53 6] 2 1 img1 = Ret (grid2, img2) /\
    forall i, 0 <= i < 2 * 1 ->
      exists o, load grid1 i = Ret o /\ load grid2 i = Ret (negb o).
Proof.
  apply (filter_recolor_twice [mkPNGColor 126 106 61; mkPNGColor 61 53 6] 2 1
           [255; 255; 255; 90; 90; 90]).
  - unfold raster_fits. simpl. lia.
  - unfold ints_ok, INT_MAX. lia.
  - reflexivity.
Defined.

(** X4.  On a buffer longer than the image, [filter] stays within the first
    [3 * width * height] bytes: it returns a buffer of the same length whose
    bytes from there on are the ones it was given. *)
Theorem filter_frame (recolor : bool) (filters : list PNGColor)
    (width height : Z) (img : list Z) :
  raster_fits img width height -> ints_ok width height ->
  exists grid img',
    filter recolor (row_pointers (3 * width) height) filters width height img
      = Ret (grid, img') /\
    length img' = length img /\
    forall a, 3 * width * height <= a -> load img' a = load img a.
Proof.
  intros Hfits Hints.
  destruct (filter_scanned recolor filters img width height Hfits Hints)
    as (st & E & [Hli _ _ Himg]).
  exists (obstacle st), (image st). split; [assumption|]. split; [assumption|].
  intros a Ha.
  assert (0 <= width * height) as Hn by (destruct Hfits as (? & ? & _); nia).
  pose proof (Z.div_mod a 3 ltac:(lia)) as Hdiv.
  pose proof (Z.mod_pos_bound a 3 ltac:(lia)) as Hmod.
  rewrite Hdiv at 1 2. rewrite Himg by lia.
  destruct (Z.ltb_spec (a / 3) (width * height)); [lia|].
  now rewrite andb_false_r.
Qed.

Lemma filter_frame_witness :
  exists grid img',
    filter true (row_pointers (3 * 1) 1) [] 1 1 [255; 255; 255; 7; 8] = Ret (grid, img') /\
    length img' = length [255; 255; 255; 7; 8] /\
    forall a, 3 * 1 * 1 <= a -> load img' a = load [255; 255; 255; 7; 8] a.
Proof.
  apply (filter_frame true [] 1 1 [255; 255; 255; 7; 8]).
  - unfold raster_fits. simpl. lia.
  - unfold ints_ok, INT_MAX. lia.
Defined.

(** X5.  The verdict on a pixel depends on that pixel alone: two images of
    the same dimensions that agree on the pixel at [(x, y)] get the same
    entry at [y * width + x], whatever their other pixels are. *)
Theorem filter_pixel_local (recolor : bool) (filters : list PNGColor)
    (width height x y : Z) (img1 img2 : list Z) :
  raster_fits img1 width height -> raster_fits img2 width height ->
  ints_ok width height ->
  0 <= x < width -> 0 <= y < height ->
  pixel_at img1 width x y = pixel_at img2 width x y ->
  exists grid1 img1' grid2 img2',
    filter recolor (row_pointers (3 * width) height) filters width height img1
      = Ret (grid1, img1') /\
    filter recolor (row_pointers (3 * width) height) filters width height img2
      = Ret (grid2, img2') /\
    load grid1 (y * width + x) = load grid2 (y * width + x).
Proof.
  intros Hfits1 Hfits2 Hints Hx Hy Hsame.
  destruct (filter_scanned recolor filters img1 width height Hfits1 Hints)
    as (st1 & E1 & Hst1).
  destruct (filter_scanned recolor filters img2 width height Hfits2 Hints)
    as (st2 & E2 & Hst2).
  exists (obstacle st1), (image st1), (obstacle st2), (image st2).
  split; [assumption|]. split; [assumption|].
  destruct (scanned_pixel_at _ _ _ _ _ x y _ Hfits1 Hst1 Hx Hy) as (p1 & Hp1 & Ho1 & _).
  destruct (scanned_pixel_at _ _ _ _ _ x y _ Hfits2 Hst2 Hx Hy) as (p2 & Hp2 & Ho2 & _).
  rewrite (Z.mul_comm y width), Ho1, Ho2. congruence.
Qed.

Lemma filter_pixel_local_witness :
  exists grid1 img1' grid2 img2',
    filter true (row_pointers (3 * 2) 1) [mkPNGColor 61 53 6] 2 1
      [60; 50; 5; 255; 255; 255] = Ret (grid1, img1') /\
    filter true (row_pointers (3 * 2) 1) [mkPNGColor 61 53 6] 2 1
      [60; 50; 5; 1; 2; 3] = Ret (grid2, img2') /\
    load grid1 (0 * 2 + 0) = load grid2 (0 * 2 + 0).
Proof.
  apply (filter_pixel_local true [mkPNGColor 61 53 6] 2 1 0 0
           [60; 50; 5; 255; 255; 255] [60; 50; 5; 1; 2; 3]).
  - unfold raster_fits. simpl. lia.
  - unfold raster_fits. simpl. lia.
  - unfold ints_ok, INT_MAX. lia.
  - lia.
  - lia.
  - reflexivity.
Defined.

(** ** Any pointers, any buffer *)

Lemma recolor_px_outcome (img : list Z) (px : Z) (isObs : bool) :
  (exists img', recolor_px img px isObs = Ret img' /\ length img' = length img) \/
  recolor_px img px isObs = Fail OutOfBounds.
Proof.
  unfold recolor_px. set (v := if isObs then 0 else 255).
  destruct (store_cases img px v) as [[_ ->]|[_ ->]]; [|now right].
  rewrite bind_Ret.
  destruct (store_cases (<[Z.to_nat px := v]> img) (px + 1) v) as [[_ ->]|[_ ->]];
    [|now right].
  rewrite bind_Ret.
  destruct (store_cases (<[Z.to_nat (px + 1) := v]> (<[Z.to_nat px := v]> img)) (px + 2) v)
    as [[_ ->]|[_ ->]]; [|now right].
  left. eexists. split; [reflexivity|]. now rewrite !length_insert.
Qed.

Lemma filter_px_outcome (recolor : bool) (filters : list PNGColor)
    (img : list Z) (width height row x y : Z) (st : fstate) :
  ints_ok width height ->
  0 <= x < width -> 0 <= y < height ->
  sized img (width * height) st ->
  (exists st',
     filter_px recolor filters width row y x st = Ret st' /\
     sized img (width * height) st') \/
  filter_px recolor filters width row y x st = Fail OutOfBounds.
Proof.
  intros (Hwh & Hw3) Hx Hy (Hli & Hlo).
  assert (0 <= width * y) as Hwy0 by nia.
  assert (width * (y + 1) <= width * height) as Hrow by nia.
  unfold filter_px, imul, iadd.
  rewrite (int_of_in_range (x * 3)), bind_Ret by (unfold INT_MIN; lia).
  destruct (is_white (image st) (row + x * 3)) as [w|f] eqn:Ew;
    [|apply is_white_fault in Ew; subst f; now right].
  rewrite bind_Ret.
  destruct (filters_loop filters (image st) (row + x * 3) w) as [o|f] eqn:Ef;
    [|apply filters_loop_fault in Ef; subst f; now right].
  rewrite bind_Ret.
  rewrite (int_of_in_range (width * y)), bind_Ret by (unfold INT_MIN; lia).
  rewrite (int_of_in_range (width * y + x)), bind_Ret by (unfold INT_MIN; lia).
  rewrite store_in_range, bind_Ret by lia.
  destruct recolor.
  - destruct (recolor_px_outcome (image st) (row + x * 3) o)
      as [(img' & -> & Hlen')| ->]; [|now right].
    left. eexists. split; [reflexivity|].
    split; simpl; [congruence | now rewrite length_insert].
  - left. eexists. split; [reflexivity|].
    split; simpl; [assumption | now rewrite length_insert].
Qed.

(** X6.  Whatever the row pointers and the buffer are, for dimensions in the
    range of [int] a run of [filter] ends in one of two ways: it returns a
    grid of [width * height] cells and a buffer of the length it was given,
    or it accesses memory outside the buffers.  It does not resize anything,
    and its arithmetic does not overflow. *)
Theorem filter_outcome (recolor : bool) (rowPointers : list Z)
    (filters : list PNGColor) (width height : Z) (img : list Z) :
  0 <= width -> 0 <= height -> ints_ok width height ->
  (exists grid img',
     filter recolor rowPointers filters width height img = Ret (grid, img') /\
     Z.of_nat (length grid) = width * height /\
     length img' = length img) \/
  filter recolor rowPointers filters width height img = Fail OutOfBounds.
Proof.
  intros Hw Hh Hints. pose proof Hints as (Hwh & _).
  assert (0 <= width * height) as Hn by nia.
  unfold filter, imul.
  rewrite int_of_in_range, bind_Ret by (unfold INT_MIN; lia).
  destruct (Z.ltb_spec (width * height) 0); [lia|].
  unfold for_upto.
  destruct (for_loop_either (fun _ t => sized img (width * height) t)
              (filter_row recolor rowPointers filters width) OutOfBounds
              (Z.to_nat height) 0
              (mkFstate img (replicate (Z.to_nat (width * height)) false)))
    as [(st & E & (Hli & Hlo))|E].
  - split; simpl; [reflexivity | rewrite length_replicate; lia].
  - intros y t Hy Ht. unfold filter_row.
    destruct (load rowPointers y) as [row|f] eqn:Erow;
      [|apply load_fault in Erow; subst f; now right].
    rewrite bind_Ret. unfold for_upto.
    destruct (for_loop_either (fun _ u => sized img (width * height) u)
                (filter_px recolor filters width row y) OutOfBounds
                (Z.to_nat width) 0 t Ht) as [(t' & Et & Ht')|Et].
    + intros x u Hx Hu.
      apply (filter_px_outcome recolor filters img width height); auto; lia.
    + left. now exists t'.
    + now right.
  - left. exists (obstacle st), (image st). rewrite E, bind_Ret. auto.
  - right. now rewrite E.
Qed.

Lemma filter_outcome_witness :
  (exists grid img',
     filter true [4; 0] [mkPNGColor 61 53 6] 1 2 [1; 2; 3; 4; 5; 6; 7]
       = Ret (grid, img') /\
     Z.of_nat (length grid) = 1 * 2 /\
     length img' = length [1; 2; 3; 4; 5; 6; 7]) \/
  filter true [4; 0] [mkPNGColor 61 53 6] 1 2 [1; 2; 3; 4; 5; 6; 7]
    = Fail OutOfBounds.
Proof.
  apply (filter_outcome true [4; 0] [mkPNGColor 61 53 6] 1 2 [1; 2; 3; 4; 5; 6; 7]).
  - lia.
  - lia.
  - unfold ints_ok, INT_MAX. lia.
Defined.

(** ** Empty rasters *)

(** X7.  A raster without rows gives the empty grid and reads nothing.  A
    raster without columns gives the empty grid too and leaves the image
    alone, but the pointer of each of its [height] rows is still read (line
    243): when the array of row pointers is shorter than [height], the run
    leaves it. *)
Theorem filter_empty_raster (recolor : bool) (rowPointers : list Z)
    (filters : list PNGColor) (img : list Z) :
  (forall width,
     filter recolor rowPointers filters width 0 img = Ret ([], img)) /\
  (forall height, 0 <= height ->
     (height <= Z.of_nat (length rowPointers) ->
      filter recolor rowPointers filters 0 height img = Ret ([], img)) /\
     (Z.of_nat (length rowPointers) < height ->
      filter recolor rowPointers filters 0 height img = Fail OutOfBounds)).
Proof.
  split.
  - intros width. unfold filter, imul. now rewrite Z.mul_0_r.
  - intros height Hh. unfold filter, imul. rewrite Z.mul_0_l. simpl.
    unfold for_upto. split.
    + intros Hlen.
      destruct (for_loop_invariant (fun _ t => t = mkFstate img [])
                  (filter_row recolor rowPointers filters 0) (Z.to_nat height) 0
                  (mkFstate img []) eq_refl) as (st & -> & ->); [|reflexivity].
      intros y t Hy ->. unfold filter_row.
      destruct (load_in_range rowPointers y) as [row ->]; [lia|].
      rewrite bind_Ret. eexists. split; reflexivity.
    + intros Hlen.
      rewrite (for_loop_fails (fun _ t => t = mkFstate img []) _ OutOfBounds
                 (Z.of_nat (length rowPointers))); [reflexivity | reflexivity | lia | |].
      * intros y t Hy ->. unfold filter_row.
        destruct (load rowPointers y) as [row|f] eqn:Erow.
        -- left. rewrite bind_Ret. eexists. split; reflexivity.
        -- right. apply load_fault in Erow. now subst f.
      * intros t _. unfold filter_row.
        destruct (load rowPointers (Z.of_nat (length rowPointers))) as [row|f] eqn:Erow.
        -- apply load_Ret_range in Erow. lia.
        -- apply load_fault in Erow. now subst f.
Qed.

Lemma filter_empty_raster_witness :
  (2 <= Z.of_nat (length [0; 0]) ->
   filter true [0; 0] [] 0 2 [1; 2; 3] = Ret ([], [1; 2; 3])) /\
  (Z.of_nat (length [0; 0]) < 2 ->
   filter true [0; 0] [] 0 2 [1; 2; 3] = Fail OutOfBounds).
Proof.
  apply (filter_empty_raster true [0; 0] [] [1; 2; 3]). lia.
Defined.

(** ** Rows of another size than [3 * width] *)

Lemma filter_px_true_short (filters : list PNGColor) (width row y x : Z)
    (st st' : fstate) :
  Z.of_nat (length (image st)) <= row + x * 3 + 2 ->
  filter_px true filters width row y x st = Ret st' -> False.
Proof.
  intros Hshort Et. unfold filter_px in Et.
  apply bind_Ret_inv in Et as (off & Eoff & Et).
  apply bind_Ret_inv in Et as (white & _ & Et).
  apply bind_Ret_inv in Et as (isObs & _ & Et).
  apply bind_Ret_inv in Et as (wy & _ & Et).
  apply bind_Ret_inv in Et as (idx & _ & Et).
  apply bind_Ret_inv in Et as (obs' & _ & Et).
  apply bind_Ret_inv in Et as (img' & Erec & _).
  unfold imul, int_of in Eoff. destruct (in_int _); [|discriminate].
  inversion Eoff; subst off.
  rewrite recolor_px_short in Erec; [discriminate | assumption].
Qed.

(** X8.  Rows of fewer than [3 * width] bytes.  When the image is laid out
    as [main] lays it out, [height] rows of [rowBytes] bytes each, and a row
    is too short for [width] pixels of three bytes, the run of [filter]
    (compiled as it is, with the recolouring on) does not return: it ends in
    an access outside the image. *)
Theorem filter_short_rows (filters : list PNGColor)
    (rowBytes width height : Z) (img : list Z) :
  0 < width -> 0 < height -> ints_ok width height ->
  0 <= rowBytes < 3 * width ->
  Z.of_nat (length img) = rowBytes * height ->
  filter PRINT_FILTERED_IMAGE (row_pointers rowBytes height) filters
    width height img = Fail OutOfBounds.
Proof.
  intros Hw Hh Hints Hrb Hlen. pose proof Hints as (Hwh & _).
  assert (0 <= width * height) as Hn by nia.
  unfold PRINT_FILTERED_IMAGE, filter, imul.
  rewrite int_of_in_range, bind_Ret by (unfold INT_MIN; lia).
  destruct (Z.ltb_spec (width * height) 0); [lia|].
  unfold for_upto.
  rewrite (for_loop_fails (fun _ t => sized img (width * height) t)
             _ OutOfBounds (height - 1)); [reflexivity | | lia | |].
  - split; simpl; [reflexivity | rewrite length_replicate; lia].
  - intros y t Hy Ht. unfold filter_row.
    rewrite row_pointers_load, bind_Ret by lia. unfold for_upto.
    destruct (for_loop_either (fun _ u => sized img (width * height) u)
                (filter_px true filters width (y * rowBytes) y) OutOfBounds
                (Z.to_nat width) 0 t Ht) as [(t' & Et & Ht')|Et].
    + intros x u Hx Hu.
      apply (filter_px_outcome true filters img width height); auto; lia.
    + left. now exists t'.
    + now right.
  - intros t Ht. unfold filter_row.
    rewrite row_pointers_load, bind_Ret by lia. unfold for_upto.
    apply (for_loop_fails (fun _ u => sized img (width * height) u) _ _ (width - 1));
      [assumption | lia | |].
    + intros x u Hx Hu.
      apply (filter_px_outcome true filters img width height); auto; lia.
    + intros u Hu.
      destruct (filter_px_outcome true filters img width height
                  ((height - 1) * rowBytes) (width - 1) (height - 1) u)
        as [(u' & Eu & _)|Eu]; auto; try lia.
      exfalso. apply (filter_px_true_short _ _ _ _ _ _ _) in Eu; [assumption|].
      destruct Hu as (Hlu & _). rewrite Hlu, Hlen.
      replace ((height - 1) * rowBytes) with (rowBytes * height - rowBytes) by ring.
      lia.
Qed.

Lemma filter_short_rows_witness :
  filter PRINT_FILTERED_IMAGE (row_pointers 2 2) [mkPNGColor 61 53 6] 2 2
    [255; 255; 255; 255] = Fail OutOfBounds.
Proof.
  apply (filter_short_rows [mkPNGColor 61 53 6] 2 2 2 [255; 255; 255; 255]).
  - lia.
  - lia.
  - unfold ints_ok, INT_MAX. lia.
  - lia.
  - reflexivity.
Defined.

Lemma done_before_iff (y x y' x' : Z) :
  done_before y x y' x' = true <-> y' < y \/ (y' = y /\ x' < x).
Proof.
  unfold done_before.
  rewrite orb_true_iff, andb_true_iff, !Z.ltb_lt, Z.eqb_eq. tauto.
Qed.

(** With rows of at least [3 * width] bytes no two pixels share a byte. *)
Lemma pixel_bytes_disjoint (rowBytes width y x k y' x' k' : Z) :
  3 * width <= rowBytes ->
  0 <= y -> 0 <= x < width -> 0 <= k < 3 ->
  0 <= y' -> 0 <= x' < width -> 0 <= k' < 3 ->
  y * rowBytes + 3 * x + k = y' * rowBytes + 3 * x' + k' ->
  y = y' /\ x = x' /\ k = k'.
Proof.
  intros Hrb Hy Hx Hk Hy' Hx' Hk' Heq.
  assert (y = y') as ->.
  { destruct (Z.lt_trichotomy y y') as [Hlt|[Heq'|Hgt]]; [|assumption|].
    - assert (0 <= rowBytes * (y' - y - 1)) by nia. nia.
    - assert (0 <= rowBytes * (y - y' - 1)) by nia. nia. }
  lia.
Qed.

Lemma pixel_from_in_range (img : list Z) (a : Z) :
  0 <= a -> a + 2 < Z.of_nat (length img) ->
  exists r g b,
    load img a = Ret r /\ load img (a + 1) = Ret g /\ load img (a + 2) = Ret b /\
    pixel_from img a = Ret (r, g, b).
Proof.
  intros H0 H2.
  destruct (load_in_range img a) as [r Hr]; [lia|].
  destruct (load_in_range img (a + 1)) as [g Hg]; [lia|].
  destruct (load_in_range img (a + 2)) as [b Hb]; [lia|].
  exists r, g, b. unfold pixel_from. now rewrite Hr, Hg, Hb.
Qed.

Lemma scanned_rows_start (recolor : bool) (filters : list PNGColor)
    (img : list Z) (rowBytes width n : Z) :
  0 <= n ->
  scanned_rows recolor filters img rowBytes width n 0 0
    (mkFstate img (replicate (Z.to_nat n) false)).
Proof.
  intros Hn. split; simpl.
  - reflexivity.
  - rewrite length_replicate. lia.
  - intros y' x' Hy' Hx' Hd. apply done_before_iff in Hd. lia.
  - intros y' x' k Hy' Hx' Hk Hd. apply done_before_iff in Hd. lia.
  - reflexivity.
Qed.

Lemma scanned_rows_next_row (recolor : bool) (filters : list PNGColor)
    (img : list Z) (rowBytes width n y : Z) (st : fstate) :
  scanned_rows recolor filters img rowBytes width n y width st ->
  scanned_rows recolor filters img rowBytes width n (y + 1) 0 st.
Proof.
  intros [Hli Hlo Hobs Hpaint Hkeep].
  assert (forall y' x', 0 <= x' < width ->
            done_before (y + 1) 0 y' x' = true -> done_before y width y' x' = true)
    as Hsame.
  { intros y' x' Hx'. rewrite !done_before_iff. lia. }
  split; auto.
  intros a Ha. apply Hkeep. intros Hrec y' x' k Hy' Hx' Hk Hd.
  apply Ha; auto. apply done_before_iff. apply done_before_iff in Hd. lia.
Qed.

Lemma filter_px_rows (recolor : bool) (filters : list PNGColor) (img : list Z)
    (rowBytes width height x y : Z) (st : fstate) :
  ints_ok width height ->
  3 * width <= rowBytes ->
  rowBytes * height <= Z.of_nat (length img) ->
  0 <= x < width -> 0 <= y < height ->
  scanned_rows recolor filters img rowBytes width (width * height) y x st ->
  exists st',
    filter_px recolor filters width (y * rowBytes) y x st = Ret st' /\
    scanned_rows recolor filters img rowBytes width (width * height) y (x + 1) st'.
Proof.
  intros (Hwh & Hw3) Hrb Hlen Hx Hy [Hli Hlo Hobs Hpaint Hkeep].
  set (A := y * rowBytes + 3 * x).
  set (i := width * y + x).
  assert (0 <= width * y) as Hwy0 by nia.
  assert (width * (y + 1) <= width * height) as Hrow by nia.
  assert (0 <= i < width * height) as Hi by (unfold i; lia).
  assert (0 <= y * rowBytes) as Hyrb by nia.
  assert (0 <= rowBytes * (height - 1 - y)) as Hrest by nia.
  assert (0 <= A /\ A + 2 < Z.of_nat (length img)) as (HA0 & HA2) by (unfold A; nia).
  destruct (pixel_from_in_range img A HA0 HA2) as (r & g & b & Hr & Hg & Hb & Hp).
  assert (verdict_from filters img A
          = near_white (r, g, b) || matches_some filters (r, g, b)) as Hv
    by (unfold verdict_from; now rewrite Hp).
  assert (forall k, 0 <= k < 3 -> load (image st) (A + k) = load img (A + k)) as Hsame.
  { intros k Hk. apply Hkeep. intros _ y' x' k' Hy' Hx' Hk' Hd Heq.
    apply done_before_iff in Hd.
    destruct (pixel_bytes_disjoint rowBytes width y x k y' x' k') as (? & ? & ?);
      auto; lia. }
  pose proof (Hsame 0 ltac:(lia)) as H0. rewrite Z.add_0_r, Hr in H0.
  pose proof (Hsame 1 ltac:(lia)) as H1. rewrite Hg in H1.
  pose proof (Hsame 2 ltac:(lia)) as H2. rewrite Hb in H2.
  assert (forall y' x', 0 <= y' -> 0 <= x' < width ->
            done_before y (x + 1) y' x' = true ->
            load (<[Z.to_nat i := verdict_from filters img A]> (obstacle st))
                 (width * y' + x') =
              Ret (verdict_from filters img (y' * rowBytes + 3 * x'))) as Hobs'.
  { intros y' x' Hy' Hx' Hd. apply done_before_iff in Hd.
    destruct (Z.eq_dec y' y) as [->|Hney].
    - destruct (Z.eq_dec x' x) as [->|Hnex].
      + fold i. fold A. apply load_insert_eq. lia.
      + rewrite load_insert_ne by (unfold i; lia).
        apply Hobs; auto. apply done_before_iff. lia.
    - assert (0 <= width * (y - y' - 1)) by nia.
      rewrite load_insert_ne by (unfold i; nia).
      apply Hobs; auto. apply done_before_iff. lia. }
  remember (filter_px recolor filters width (y * rowBytes) y x st) as res eqn:E.
  unfold filter_px, imul, iadd in E.
  rewrite (int_of_in_range (x * 3)), bind_Ret in E by (unfold INT_MIN; lia).
  replace (y * rowBytes + x * 3) with A in E by (unfold A; lia).
  rewrite (is_white_spec _ _ r g b H0 H1 H2), bind_Ret in E.
  rewrite (filters_loop_spec _ _ _ r g b _ H0 H1 H2), bind_Ret in E.
  rewrite (int_of_in_range (width * y)), bind_Ret in E by (unfold INT_MIN; lia).
  rewrite (int_of_in_range (width * y + x)), bind_Ret in E
    by (fold i; unfold INT_MIN; lia).
  fold i in E. rewrite <- Hv in E.
  rewrite store_in_range, bind_Ret in E by lia.
  destruct recolor.
  - destruct (recolor_px_spec (image st) A (verdict_from filters img A))
      as (img' & E' & Hlen' & Hload); [lia | lia |].
    rewrite E', bind_Ret in E. subst res. eexists. split; [reflexivity|].
    split; simpl.
    + congruence.
    + now rewrite length_insert.
    + exact Hobs'.
    + intros y' x' k Hy' Hx' Hk Hd _. rewrite Hload.
      apply done_before_iff in Hd.
      destruct (Z.eq_dec y' y) as [->|Hney]; [destruct (Z.eq_dec x' x) as [->|Hnex]|].
      * fold A.
        destruct (Z.leb_spec A (A + k)), (Z.leb_spec (A + k) (A + 2)); try lia.
        reflexivity.
      * destruct (Z.leb_spec A (y * rowBytes + 3 * x' + k)),
                 (Z.leb_spec (y * rowBytes + 3 * x' + k) (A + 2));
          simpl; try (unfold A in *; lia);
          apply Hpaint; auto; apply done_before_iff; lia.
      * assert (forall k', 0 <= k' < 3 -> y' * rowBytes + 3 * x' + k <> A + k') as Hne.
        { intros k' Hk' Heq. unfold A in Heq.
          destruct (pixel_bytes_disjoint rowBytes width y' x' k y x k') as (? & ? & ?);
            auto; lia. }
        destruct (Z.leb_spec A (y' * rowBytes + 3 * x' + k)),
                 (Z.leb_spec (y' * rowBytes + 3 * x' + k) (A + 2)); simpl.
        -- exfalso. apply (Hne (y' * rowBytes + 3 * x' + k - A)); lia.
        -- apply Hpaint; auto. apply done_before_iff. lia.
        -- apply Hpaint; auto. apply done_before_iff. lia.
        -- apply Hpaint; auto. apply done_before_iff. lia.
    + intros a Ha. rewrite Hload.
      destruct (Z.leb_spec A a), (Z.leb_spec a (A + 2)); simpl.
      * exfalso.
        apply (Ha eq_refl y x (a - A));
          [lia | lia | lia | apply done_before_iff; lia | unfold A; lia].
      * apply Hkeep. intros _ y' x' k Hy' Hx' Hk Hd. apply Ha; auto.
        apply done_before_iff. apply done_before_iff in Hd. lia.
      * apply Hkeep. intros _ y' x' k Hy' Hx' Hk Hd. apply Ha; auto.
        apply done_before_iff. apply done_before_iff in Hd. lia.
      * apply Hkeep. intros _ y' x' k Hy' Hx' Hk Hd. apply Ha; auto.
        apply done_before_iff. apply done_before_iff in Hd. lia.
  - subst res. eexists. split; [reflexivity|].
    split; simpl.
    + assumption.
    + now rewrite length_insert.
    + exact Hobs'.
    + intros; discriminate.
    + intros a _. apply Hkeep. intros; discriminate.
Qed.

Lemma filter_scanned_rows (recolor : bool) (filters : list PNGColor)
    (img : list Z) (rowBytes width height : Z) :
  0 <= width -> 0 <= height -> ints_ok width height ->
  3 * width <= rowBytes ->
  rowBytes * height <= Z.of_nat (length img) ->
  exists st,
    filter recolor (row_pointers rowBytes height) filters width height img
      = Ret (obstacle st, image st) /\
    scanned_rows recolor filters img rowBytes width (width * height) height 0 st.
Proof.
  intros Hw Hh Hints Hrb Hlen. pose proof Hints as (Hwh & _).
  assert (0 <= width * height) as Hn by nia.
  unfold filter, imul.
  rewrite int_of_in_range, bind_Ret by (unfold INT_MIN; lia).
  destruct (Z.ltb_spec (width * height) 0); [lia|].
  destruct (for_upto_invariant
              (fun y t => scanned_rows recolor filters img rowBytes width
                            (width * height) y 0 t)
              (filter_row recolor (row_pointers rowBytes height) filters width)
              height
              (mkFstate img (replicate (Z.to_nat (width * height)) false)))
    as (st & E & Hst).
  - assumption.
  - now apply scanned_rows_start.
  - intros y t Hy Ht. unfold filter_row.
    rewrite row_pointers_load, bind_Ret by assumption.
    destruct (for_upto_invariant
                (fun x u => scanned_rows recolor filters img rowBytes width
                              (width * height) y x u)
                (filter_px recolor filters width (y * rowBytes) y) width t)
      as (t' & Et & Ht'); [assumption | assumption | |].
    + intros x u Hx Hu.
      now apply (filter_px_rows recolor filters img rowBytes width height).
    + exists t'. split; [assumption|]. now apply scanned_rows_next_row.
  - exists st. rewrite E, bind_Ret. split; [reflexivity | assumption].
Qed.

(** X9.  Rows with padding.  When the image is laid out in [height] rows
    of [rowBytes] bytes, each with room for its [width] pixels, [filter]
    returns; the entry at [width * y + x] is the verdict on the three bytes
    at [y * rowBytes + 3 * x]; with the recolouring on these three bytes are
    repainted; and no byte that is not a channel of one of the
    [width * height] pixels, be it padding or past the last row, is
    changed. *)
Theorem filter_padded_rows (recolor : bool) (filters : list PNGColor)
    (rowBytes width height : Z) (img : list Z) :
  0 <= width -> 0 <= height -> ints_ok width height ->
  3 * width <= rowBytes ->
  rowBytes * height <= Z.of_nat (length img) ->
  exists grid img',
    filter recolor (row_pointers rowBytes height) filters width height img
      = Ret (grid, img') /\
    (forall x y, 0 <= x < width -> 0 <= y < height ->
       exists p,
         pixel_from img (y * rowBytes + 3 * x) = Ret p /\
         load grid (width * y + x) = Ret (obstacle_rule filters p) /\
         (recolor = true ->
          pixel_from img' (y * rowBytes + 3 * x)
            = Ret (if obstacle_rule filters p then (0, 0, 0) else (255, 255, 255)))) /\
    (forall a,
       (forall x y k, 0 <= x < width -> 0 <= y < height -> 0 <= k < 3 ->
          a <> y * rowBytes + 3 * x + k) ->
       load img' a = load img a).
Proof.
  intros Hw Hh Hints Hrb Hlen.
  destruct (filter_scanned_rows recolor filters img rowBytes width height)
    as (st & E & [Hli Hlo Hobs Hpaint Hkeep]); auto.
  exists (obstacle st), (image st). split; [assumption|]. split.
  - intros x y Hx Hy.
    assert (0 <= y * rowBytes) by nia.
    assert (0 <= rowBytes * (height - 1 - y)) by nia.
    destruct (pixel_from_in_range img (y * rowBytes + 3 * x))
      as (r & g & b & _ & _ & _ & Hp); [lia | nia |].
    assert (verdict_from filters img (y * rowBytes + 3 * x)
            = obstacle_rule filters (r, g, b)) as Hv
      by (unfold verdict_from; now rewrite Hp).
    assert (done_before height 0 y x = true) as Hd
      by (apply done_before_iff; lia).
    exists (r, g, b). split; [assumption|]. split.
    + rewrite <- Hv. apply Hobs; auto; lia.
    + intros Hrec. unfold pixel_from.
      pose proof (Hpaint y x 0 ltac:(lia) Hx ltac:(lia) Hd Hrec) as Hred.
      rewrite Z.add_0_r in Hred.
      pose proof (Hpaint y x 1 ltac:(lia) Hx ltac:(lia) Hd Hrec) as Hgreen.
      pose proof (Hpaint y x 2 ltac:(lia) Hx ltac:(lia) Hd Hrec) as Hblue.
      rewrite Hred, Hgreen, Hblue, !bind_Ret, Hv.
      now destruct (obstacle_rule filters (r, g, b)).
  - intros a Ha. apply Hkeep. intros _ y' x' k Hy' Hx' Hk Hd.
    apply done_before_iff in Hd. apply Ha; auto; lia.
Qed.

Lemma filter_padded_rows_witness :
  exists grid img',
    filter true (row_pointers 4 2) [mkPNGColor 61 53 6] 1 2
      [255; 255; 255; 77; 60; 50; 5; 88] = Ret (grid, img') /\
    (forall x y, 0 <= x < 1 -> 0 <= y < 2 ->
       exists p,
         pixel_from [255; 255; 255; 77; 60; 50; 5; 88] (y * 4 + 3 * x) = Ret p /\
         load grid (1 * y + x) = Ret (obstacle_rule [mkPNGColor 61 53 6] p) /\
         (true = true ->
          pixel_from img' (y * 4 + 3 * x)
            = Ret (if obstacle_rule [mkPNGColor 61 53 6] p
                   then (0, 0, 0) else (255, 255, 255)))) /\
    (forall a,
       (forall x y k, 0 <= x < 1 -> 0 <= y < 2 -> 0 <= k < 3 ->
          a <> y * 4 + 3 * x + k) ->
       load img' a = load [255; 255; 255; 77; 60; 50; 5; 88] a).
Proof.
  apply (filter_padded_rows true [mkPNGColor 61 53 6] 4 1 2
           [255; 255; 255; 77; 60; 50; 5; 88]).
  - lia.
  - lia.
  - unfold ints_ok, INT_MAX. lia.
  - lia.
  - simpl. lia.
Defined.

Example filter_padded_2x1 :
  filter true (row_pointers 4 2) [mkPNGColor 61 53 6] 1 2
    [255; 255; 255; 77; 90; 50; 5; 88] =
  Ret ([true; false], [0; 0; 0; 77; 255; 255; 255; 88]).
Proof. vm_compute. reflexivity. Qed.

(** * Further properties of [main] *)

Lemma size_mul_small (a b : Z) :
  0 <= a * b <= SIZE_MAX -> size_mul a b = a * b.
Proof. intros H. unfold size_mul. apply Z.mod_small. lia. Qed.

(** X10.  The loop of lines 103-106 fills the whole array of row pointers:
    when the image is a vector of [rowBytes * height] bytes, a product that
    does not wrap and that a vector can hold, then whatever the array held,
    entry [y] ends up as the offset [y * rowBytes], which is what the
    properties of [filter] take for [rowPointers], and every address taken
    is that of an element of the image.  When the size of the image comes
    out as 0, with [rowBytes = 0] or with a product that wraps to 0, and
    there is a row, the first address taken is not that of an element. *)
Theorem main_row_pointers_spec (rowBytes height : Z) (init : list Z) :
  0 <= height <= INT_MAX ->
  Z.of_nat (length init) = height ->
  (0 < rowBytes -> rowBytes * height <= PTRDIFF_MAX ->
   main_row_pointers rowBytes height init = Ret (row_pointers rowBytes height)) /\
  (size_mul rowBytes height = 0 -> 0 < height ->
   main_row_pointers rowBytes height init = Fail OutOfBounds).
Proof.
  intros Hh Hinit. unfold main_row_pointers. cbv zeta. split.
  - intros Hrb Hsize.
    assert (0 <= rowBytes * height) as Hprod by nia.
    rewrite (size_mul_small rowBytes height)
      by (unfold SIZE_MAX, PTRDIFF_MAX in *; lia).
    destruct (Z.ltb_spec PTRDIFF_MAX (rowBytes * height)); [lia|].
    destruct (for_upto_invariant
                (fun y rp => Z.of_nat (length rp) = height /\
                             forall j, 0 <= j < y -> load rp j = Ret (j * rowBytes))
                (fun y rowPointers =>
                   a ← (if size_mul y rowBytes <? rowBytes * height
                        then mret (size_mul y rowBytes) else Fail OutOfBounds);
                   rowPointers' ← store rowPointers y a;
                   _ ← iadd y 1;
                   mret rowPointers')
                height init) as (rp & E & Hlen & Hrp).
    + lia.
    + split; [assumption | intros j Hj; lia].
    + intros y rp Hy (Hlen & Hrp).
      assert (0 <= y * rowBytes < rowBytes * height) as Hoff by nia.
      rewrite (size_mul_small y rowBytes)
        by (unfold SIZE_MAX, PTRDIFF_MAX in *; lia).
      destruct (Z.ltb_spec (y * rowBytes) (rowBytes * height)); [|lia].
      change (mret (y * rowBytes) ≫= ?k) with (k (y * rowBytes)). cbv beta.
      rewrite store_in_range, bind_Ret by lia.
      unfold iadd. rewrite int_of_in_range, bind_Ret by (unfold INT_MIN; lia).
      eexists. split; [reflexivity|]. split; [now rewrite length_insert|].
      intros j Hj. destruct (Z.eq_dec j y) as [->|Hne].
      * apply load_insert_eq. lia.
      * rewrite load_insert_ne by lia. apply Hrp. lia.
    + rewrite E. f_equal. apply load_ext.
      * unfold row_pointers. rewrite length_fmap, length_seq. lia.
      * intros j Hj. rewrite Hrp, row_pointers_load by lia. reflexivity.
  - intros -> Hpos. unfold for_upto.
    destruct (Z.to_nat height) as [|n] eqn:En; [lia|].
    reflexivity.
Qed.

Lemma main_row_pointers_spec_witness :
  main_row_pointers 6 3 [0; 0; 0] = Ret (row_pointers 6 3).
Proof.
  apply (main_row_pointers_spec 6 3 [0; 0; 0]).
  - unfold INT_MAX. lia.
  - reflexivity.
  - lia.
  - unfold PTRDIFF_MAX. lia.
Defined.

(** Two rows of [2^63] bytes: the size of the image wraps to 0. *)
Example main_row_pointers_wrap :
  main_row_pointers (2 ^ 63) 2 [0; 0] = Fail OutOfBounds.
Proof. vm_compute. reflexivity. Qed.

Section TraversalProperties.

Context {Scalar : Type}.

Implicit Types (v : Visitor Scalar) (traversal : list (callback Scalar)).
Implicit Types (out : list (svg_call Scalar)).

Lemma delivered_app traversal1 traversal2 v :
  delivered (traversal1 ++ traversal2) (from_ v) =
  delivered traversal1 (from_ v) ++
  delivered traversal2 (from_ (visitor_after traversal1 v)).
Proof.
  revert v. induction traversal1 as [|[q|to] rest IH]; intros v; simpl.
  - reflexivity.
  - apply (IH (vertex q v)).
  - now rewrite IH.
Qed.

(** X11.  Within a traversal the cap is a running total, not a cap on a
    part.  Cut the traversal in two: the first part, which finds the counter
    at [count], has its first [10000 - count] edges drawn; the second part
    has only its first [10000 - count - k1] edges drawn, [k1] being the
    number of edges the first part delivered, drawn or not; and the counter
    ends at [count] plus all the edges delivered. *)
Theorem visitGraph_batches traversal1 traversal2 v (count : Z) out :
  let d1 := delivered traversal1 (from_ v) in
  let d2 := delivered traversal2 (from_ (visitor_after traversal1 v)) in
  0 <= count ->
  count + Z.of_nat (length d1) + Z.of_nat (length d2) <= INT_MAX ->
  visitGraph (traversal1 ++ traversal2) v count out =
    Ret (count + Z.of_nat (length d1) + Z.of_nat (length d2),
         out ++ (visited_segment <$> take (Z.to_nat (10000 - count)) d1)
             ++ (visited_segment <$>
                   take (Z.to_nat (10000 - count - Z.of_nat (length d1))) d2)).
Proof.
  intros d1 d2 Hc Hmax.
  rewrite visitGraph_spec;
    [|assumption | rewrite delivered_app, length_app; fold d1 d2; lia].
  rewrite delivered_app. fold d1 d2. f_equal. f_equal.
  - rewrite length_app. lia.
  - f_equal. rewrite take_app, fmap_app. f_equal. f_equal. f_equal. lia.
Qed.

(** X12.  The counter is an [int] that every call of [edge] increments,
    drawn or not: a traversal that delivers more edges than are left up to
    [INT_MAX] runs into the overflow of [++count]. *)
Theorem visitGraph_overflow traversal v (count : Z) out :
  0 <= count <= INT_MAX ->
  INT_MAX < count + Z.of_nat (length (delivered traversal (from_ v))) ->
  visitGraph traversal v count out = Fail IntOverflow.
Proof.
  revert v count out.
  induction traversal as [|[q|to] rest IH]; intros v c out Hc Hmax; simpl in *.
  - lia.
  - now apply IH.
  - unfold edge, iadd.
    destruct (Z.eq_dec c INT_MAX) as [->|Hne]; [reflexivity|].
    rewrite int_of_in_range, bind_Ret by (unfold INT_MIN; lia).
    destruct (10000 <? c + 1); simpl; apply IH; lia.
Qed.

End TraversalProperties.

Lemma visitGraph_overflow_witness :
  visitGraph [on_vertex (1, 1); on_edge (2, 2)] (new_Visitor (0, 0)) INT_MAX []
    = Fail IntOverflow.
Proof.
  apply (visitGraph_overflow [on_vertex (1, 1); on_edge (2, 2)] (new_Visitor (0, 0))).
  - unfold INT_MAX. lia.
  - unfold INT_MAX. simpl. lia.
Defined.

Lemma visitGraph_batches_witness :
  visitGraph ([on_vertex (1, 1); on_edge (2, 2)] ++ [on_edge (3, 3)])
    (new_Visitor (0, 0)) 9999 [] =
  Ret (9999 + 1 + 1,
       [] ++ (visited_segment <$> take (Z.to_nat (10000 - 9999)) [((1, 1), (2, 2))])
          ++ (visited_segment <$> take (Z.to_nat (10000 - 9999 - 1)) [((1, 1), (3, 3))])).
Proof.
  apply (visitGraph_batches [on_vertex (1, 1); on_edge (2, 2)] [on_edge (3, 3)]
           (new_Visitor (0, 0)) 9999 []).
  - lia.
  - unfold INT_MAX. simpl. lia.
Defined.
